(** * CLEAN deconvolution ([src/_deconv/deconv.cpp]) in Rocq

    A shallow embedding of the four [Clean<T>] loops ([clean_1d_r],
    [clean_2d_r], [clean_1d_c], [clean_2d_c]) and of the Python wrapper
    [clean], followed by the properties of the specification.

    Numbers.  The template parameter [T] is [float], [double] or
    [long double]; all three are IEEE-754 binary formats and are modelled by
    the Standard Library's [spec_float] with the operations of [SpecFloat]
    at a precision [prec] and an exponent bound [emax] (24/128, 53/1024,
    64/16384).  Every arithmetic operation of the source is one correctly
    rounded operation here, in the order the source writes it.

    [gain] and [tol] are [double]s whatever [T] is: the gain is cast to [T]
    where it is used, and the comparison with the tolerance is made in the
    wider of [T] and [double].

    Buffers.  A 1-D array is a [list], a 2-D array a list of rows; the
    element of a complex array is the pair of its real and imaginary parts.
    The three buffers are distinct objects (no aliasing), [res] and [mdl] are
    threaded through the loop as state, [ker] is read only.

    Integers.  Extents, offsets and indices are 32-bit [int]s in the source:
    [to_int] is the value an [int] takes and [wrap_n] the index expression
    of the scoring loops on [int]s.  The lists are indexed by position, a
    natural number, and an extent is the length of a list.  The position
    [wrap] is the [int] index [wrap_n] wherever the sum [n + argmax] fits an
    [int], that is on every axis of at most 2^30 elements; the loops are the
    code's on such axes.  The divisor of the RMS is the [int] the code
    divides by.

    An access outside a buffer has no defined behaviour in the source.  Here
    a read outside gives a default value and a write outside changes
    nothing; on buffers of one shape that are not empty and whose axes have
    at most 2^30 elements every index the loops compute is shown to be
    inside.

    [printf] under [verb] only reads the state and is left out. *)

From Stdlib Require Import ZArith Bool List Lia String.
From Stdlib Require Import SpecFloat.
From stdpp Require Import base list.

Set Default Proof Using "Type".
Open Scope Z_scope.

(** ** Scalars *)

#[global] Instance spec_float_inhabited : Inhabited spec_float :=
  populate (S754_zero false).

#[global] Instance spec_float_eq_dec : EqDecision spec_float.
Proof. solve_decision. Defined.

Declare Scope T_scope.
Delimit Scope T_scope with T.

Section Scalar.
Variables prec emax : Z.

(** [(T) n] for an [int] n. *)
Definition of_int (n : Z) : spec_float := binary_normalize prec emax n 0 false.

(** [(T) x] for a [double] x: rounding to the format of [T]. *)
Definition of_double (x : spec_float) : spec_float :=
  match x with
  | S754_finite s m e => binary_round prec emax s m e
  | _ => x
  end.

Definition Tadd := SFadd prec emax.
Definition Tsub := SFsub prec emax.
Definition Tmul := SFmul prec emax.
Definition Tdiv := SFdiv prec emax.
Definition Tsqrt := SFsqrt prec emax.
Definition Topp := SFopp.
(** [a > b] and [a < b] between two values of type [T]; both are false when
    an operand is a NaN. *)
Definition Tgt (a b : spec_float) : bool := SFltb b a.
Definition Tlt (a b : spec_float) : bool := SFltb a b.

(** The conversion of a value to the format [p]/[e]: it changes no value when
    that format is at least as wide as the value's own. *)
Definition convert (p e : Z) (x : spec_float) : spec_float :=
  match x with
  | S754_finite s m ex => binary_round p e s m ex
  | _ => x
  end.

(** [a < tol] for a [T] a and the [double] tol.  The usual arithmetic
    conversions bring both operands to the wider of the two types, [double]
    when [T] is [float] and [long double] when [T] is [long double], and the
    comparison is made there. *)
Definition Tlt_double (a tol : spec_float) : bool :=
  let p := Z.max prec 53 in
  let e := Z.max emax 1024 in
  SFltb (convert p e a) (convert p e tol).
End Scalar.

(** ** Machine integers *)

(** The value of an [int] that is assigned, or computes, the integer [z]: 32
    bits in two's complement, so [z] itself when it fits and [z] wrapped
    around otherwise.  [int dim1 = DIM(res,0)] stores an [npy_intp] that way,
    and so do the sum [n + argmax] and the product [dim1 * dim2] on the
    platforms the module is built for. *)
Definition to_int (z : Z) : Z := (z + 2 ^ 31) mod 2 ^ 32 - 2 ^ 31.

(** [wrap_n = (n + argmax) % dim] of lines 150, 80 and 82, on [int]s.  [%]
    truncates towards zero: a sum that has wrapped around to a negative
    number gives a negative index. *)
Definition wrap_n (dim argmax n : Z) : Z := Z.rem (to_int (n + argmax)) dim.

(** ** Arrays *)

(** [IND1(a,i,T)] read and read-modify-write, at a position inside the
    buffer (outside it the read is a default value and the write does
    nothing, where the source has no defined behaviour). *)
Definition IND1 {A} `{Inhabited A} (a : list A) (i : nat) : A := a !!! i.
Definition upd1 {A} (f : A -> A) (i : nat) (a : list A) : list A := alter f i a.

(** [IND2(a,i,j,T)] read and read-modify-write. *)
Definition IND2 {A} `{Inhabited A} (a : list (list A)) (i j : nat) : A :=
  (a !!! i) !!! j.
Definition upd2 {A} (f : A -> A) (i j : nat) (a : list (list A)) : list (list A) :=
  alter (alter f j) i a.

(** [DIM(a,0)] and [DIM(a,1)]. *)
Definition DIM0 {A} (a : list A) : nat := length a.
Definition DIM1 {A} (a : list (list A)) : nat := length (a !!! 0%nat).

(** ** The loop driver *)

(** One pass through the body of [for (int i=0; i < maxiter; i++)] either
    executes a [return] or falls to the end of the body. *)
Inductive outcome (S : Type) : Type :=
  | Return (rv : Z) (s : S)
  | Continue (s : S).
Arguments Return {S} rv s.
Arguments Continue {S} s.

(** [for_loop body maxiter n i s]: [n] iterations remain, the counter is [i];
    when none remains the function returns [maxiter]. *)
Fixpoint for_loop {S} (body : Z -> S -> outcome S) (maxiter : Z)
    (n : nat) (i : Z) (s : S) : Z * S :=
  match n with
  | O => (maxiter, s)
  | Datatypes.S n' =>
      match body i s with
      | Return rv s' => (rv, s')
      | Continue s' => for_loop body maxiter n' (i + 1) s'
      end
  end.

(** The state at the start of iteration [i + k], if the loop gets there. *)
Fixpoint state_at {S} (body : Z -> S -> outcome S) (k : nat) (i : Z) (s : S)
    : option S :=
  match k with
  | O => Some s
  | Datatypes.S k' =>
      match body i s with
      | Return _ _ => None
      | Continue s' => state_at body k' (i + 1) s'
      end
  end.

(** The variables that live across iterations: the two mutable buffers and
    the locals declared before the loop.  [B] is the buffer type, [V] the type
    of the peak value, [I] the type of an index. *)
Record state (B V I : Type) : Type := mkState {
  res : B;
  mdl : B;
  score : spec_float;
  firstscore : spec_float;
  max : V;
  argmax : I;
  nargmax : I
}.
Arguments mkState {B V I}.
Arguments res {B V I}.
Arguments mdl {B V I}.
Arguments score {B V I}.
Arguments firstscore {B V I}.
Arguments max {B V I}.
Arguments argmax {B V I}.
Arguments nargmax {B V I}.

(** The variables of the scoring loop ("Take next step and compute score"). *)
Record scan (B V I : Type) : Type := mkScan {
  a_res : B;
  a_nscore : spec_float;
  a_mmax : spec_float;
  a_max : V;
  a_nargmax : I
}.
Arguments mkScan {B V I}.
Arguments a_res {B V I}.
Arguments a_nscore {B V I}.
Arguments a_mmax {B V I}.
Arguments a_max {B V I}.
Arguments a_nargmax {B V I}.

(** What one iteration has computed when it reaches the two tests: the step,
    the updated buffers, the new RMS and the new peak. *)
Record trial (B V I : Type) : Type := mkTrial {
  t_step : V;
  t_mdl : B;
  t_res : B;
  t_nscore : spec_float;
  t_max : V;
  t_nargmax : I
}.
Arguments mkTrial {B V I}.
Arguments t_step {B V I}.
Arguments t_mdl {B V I}.
Arguments t_res {B V I}.
Arguments t_nscore {B V I}.
Arguments t_max {B V I}.
Arguments t_nargmax {B V I}.

(** [(n + argmax) % dim] as a position in a list.  The loops below index the
    buffers with it.  It is the [int] the code computes, [wrap_n], as long as
    [n + argmax] fits an [int], which it does on every axis of at most 2^30
    elements; on a longer axis the code's sum can wrap around and the loops
    below are not the code's.  The properties that are about the indices
    carry that bound. *)
Definition wrap (dim argmax n : nat) : nat := ((n + argmax) mod dim)%nat.

Section Clean.
Variables prec emax : Z.

Abbreviation T := spec_float.
Notation "x + y" := (Tadd prec emax x y) : T_scope.
Notation "x - y" := (Tsub prec emax x y) : T_scope.
Notation "x * y" := (Tmul prec emax x y) : T_scope.
Notation "x / y" := (Tdiv prec emax x y) : T_scope.
Notation "- x" := (Topp x) : T_scope.
Notation "x >? y" := (Tgt x y) : T_scope.
Notation "x <? y" := (Tlt x y) : T_scope.
Notation "# n" := (of_int prec emax n) (at level 1, format "# n") : T_scope.
Abbreviation sqrt := (Tsqrt prec emax).

(** The two tests at the end of an iteration, and line 162. *)
Definition diverged (score nscore : T) : bool :=
  ((score >? #0) && (nscore >? score))%T.

(** [tol] is the [double] the caller passed, whatever [T] is. *)
Definition converged (score nscore firstscore tol : T) : bool :=
  ((score >? #0) && Tlt_double prec emax ((score - nscore) / firstscore) tol)%T.

Definition set_first (firstscore nscore : T) : T :=
  if (firstscore <? #0)%T then nscore else firstscore.

(** *** [clean_1d_r] *)

(** Kernel scan, lines 133-140: the running pair [(mq, q)], replaced when
    [mval > mq]. *)
Definition peak_1d_r (ker : list T) (dim : nat) : T * T :=
  foldl (fun a n =>
           let val := IND1 ker n in
           let mval := (val * val)%T in
           if (mval >? fst a)%T then (mval, val) else a)
        (#0, #0)%T (seq 0 dim).

(** Line 141. *)
Definition q_1d_r (ker : list T) (dim : nat) : T :=
  (#1 / snd (peak_1d_r ker dim))%T.

(** Lines 150-159, one pass of the scoring loop. *)
Definition scan_1d_r (ker : list T) (step : T) (argmax dim : nat)
    (a : scan (list T) T nat) (n : nat) : scan (list T) T nat :=
  let wrap_n := wrap dim argmax n in
  let res := upd1 (fun r => r - IND1 ker n * step)%T wrap_n (a_res a) in
  let val := IND1 res wrap_n in
  let mval := (val * val)%T in
  let nscore := (a_nscore a + mval)%T in
  if (mval >? a_mmax a)%T then mkScan res nscore mval val wrap_n
  else mkScan res nscore (a_mmax a) (a_max a) (a_nargmax a).

(** Lines 144-161.  The divisor of line 161 is the [int dim]. *)
Definition attempt_1d_r (ker : list T) (gain q : T) (dim : nat)
    (s : state (list T) T nat) : trial (list T) T nat :=
  let step := (of_double prec emax gain * max s * q)%T in
  let mdl1 := upd1 (fun m => m + step)%T (argmax s) (mdl s) in
  let a := foldl (scan_1d_r ker step (argmax s) dim)
                 (mkScan (res s) #0 #(-1) (max s) (nargmax s))%T (seq 0 dim) in
  mkTrial step mdl1 (a_res a) (sqrt (a_nscore a / #(to_int (Z.of_nat dim)))%T)
          (a_max a) (a_nargmax a).

(** The undo loop, lines 170-173. *)
Definition undo_1d_r (ker : list T) (step : T) (argmax dim : nat)
    (res : list T) : list T :=
  foldl (fun res n =>
           upd1 (fun r => r + IND1 ker n * step)%T (wrap dim argmax n) res)
        res (seq 0 dim).

(** Lines 143-181, the body of the clean loop. *)
Definition iter_1d_r (ker : list T) (gain tol q : T) (dim : nat)
    (i : Z) (s : state (list T) T nat) : outcome (state (list T) T nat) :=
  let t := attempt_1d_r ker gain q dim s in
  let firstscore1 := set_first (firstscore s) (t_nscore t) in
  if diverged (score s) (t_nscore t) then
    Return (- i)
      (mkState (undo_1d_r ker (t_step t) (argmax s) dim (t_res t))
               (upd1 (fun m => m - t_step t)%T (argmax s) (t_mdl t))
               (score s) firstscore1 (t_max t) (argmax s) (t_nargmax t))
  else if converged (score s) (t_nscore t) firstscore1 tol then
    Return i
      (mkState (t_res t) (t_mdl t) (score s) firstscore1 (t_max t) (argmax s)
               (t_nargmax t))
  else
    Continue
      (mkState (t_res t) (t_mdl t) (t_nscore t) firstscore1 (t_max t)
               (t_nargmax t) (t_nargmax t)).

(** The locals before the loop: [score=-1], [firstscore=-1], [max=0],
    [argmax=0], [nargmax=0]. *)
Definition init_1d {V} (res mdl : list V) (max0 : V) : state (list V) V nat :=
  mkState res mdl (#(-1))%T (#(-1))%T max0 0%nat 0%nat.

Definition clean_1d_r (res ker mdl : list T) (gain : T) (maxiter : Z) (tol : T)
    : Z * state (list T) T nat :=
  let dim := DIM0 res in
  let q := q_1d_r ker dim in
  for_loop (iter_1d_r ker gain tol q dim) maxiter (Z.to_nat maxiter) 0
           (init_1d res mdl (#0)%T).

(** *** [clean_2d_r] *)

(** Kernel scan, lines 61-70. *)
Definition peak_2d_r (ker : list (list T)) (dim1 dim2 : nat) : T * T :=
  foldl (fun a n1 =>
           foldl (fun a n2 =>
                    let val := IND2 ker n1 n2 in
                    let mval := (val * val)%T in
                    if (mval >? fst a)%T then (mval, val) else a)
                 a (seq 0 dim2))
        (#0, #0)%T (seq 0 dim1).

(** Line 71. *)
Definition q_2d_r (ker : list (list T)) (dim1 dim2 : nat) : T :=
  (#1 / snd (peak_2d_r ker dim1 dim2))%T.

(** Lines 82-91, one pass of the inner scoring loop. *)
Definition scan_2d_r (ker : list (list T)) (step : T) (argmax2 dim2 : nat)
    (n1 wrap_n1 : nat) (a : scan (list (list T)) T (nat * nat)) (n2 : nat)
    : scan (list (list T)) T (nat * nat) :=
  let wrap_n2 := wrap dim2 argmax2 n2 in
  let res :=
    upd2 (fun r => r - IND2 ker n1 n2 * step)%T wrap_n1 wrap_n2 (a_res a) in
  let val := IND2 res wrap_n1 wrap_n2 in
  let mval := (val * val)%T in
  let nscore := (a_nscore a + mval)%T in
  if (mval >? a_mmax a)%T then mkScan res nscore mval val (wrap_n1, wrap_n2)
  else mkScan res nscore (a_mmax a) (a_max a) (a_nargmax a).

(** Lines 74-94.  [dim1 * dim2] is an [int] product: it wraps around when
    the image has 2^31 elements or more. *)
Definition attempt_2d_r (ker : list (list T)) (gain q : T) (dim1 dim2 : nat)
    (s : state (list (list T)) T (nat * nat))
    : trial (list (list T)) T (nat * nat) :=
  let argmax1 := fst (argmax s) in
  let argmax2 := snd (argmax s) in
  let step := (of_double prec emax gain * max s * q)%T in
  let mdl1 := upd2 (fun m => m + step)%T argmax1 argmax2 (mdl s) in
  let a :=
    foldl (fun a n1 =>
             foldl (scan_2d_r ker step argmax2 dim2 n1 (wrap dim1 argmax1 n1))
                   a (seq 0 dim2))
          (mkScan (res s) #0 #(-1) (max s) (nargmax s))%T (seq 0 dim1) in
  mkTrial step mdl1 (a_res a)
          (sqrt (a_nscore a / #(to_int (Z.of_nat dim1 * Z.of_nat dim2)))%T)
          (a_max a) (a_nargmax a).

(** The undo loops, lines 103-109. *)
Definition undo_2d_r (ker : list (list T)) (step : T) (argmax : nat * nat)
    (dim1 dim2 : nat) (res : list (list T)) : list (list T) :=
  foldl (fun res n1 =>
           foldl (fun res n2 =>
                    upd2 (fun r => r + IND2 ker n1 n2 * step)%T
                         (wrap dim1 (fst argmax) n1)
                         (wrap dim2 (snd argmax) n2) res)
                 res (seq 0 dim2))
        res (seq 0 dim1).

(** Lines 73-117. *)
Definition iter_2d_r (ker : list (list T)) (gain tol q : T) (dim1 dim2 : nat)
    (i : Z) (s : state (list (list T)) T (nat * nat))
    : outcome (state (list (list T)) T (nat * nat)) :=
  let t := attempt_2d_r ker gain q dim1 dim2 s in
  let firstscore1 := set_first (firstscore s) (t_nscore t) in
  if diverged (score s) (t_nscore t) then
    Return (- i)
      (mkState (undo_2d_r ker (t_step t) (argmax s) dim1 dim2 (t_res t))
               (upd2 (fun m => m - t_step t)%T (fst (argmax s)) (snd (argmax s))
                     (t_mdl t))
               (score s) firstscore1 (t_max t) (argmax s) (t_nargmax t))
  else if converged (score s) (t_nscore t) firstscore1 tol then
    Return i
      (mkState (t_res t) (t_mdl t) (score s) firstscore1 (t_max t) (argmax s)
               (t_nargmax t))
  else
    Continue
      (mkState (t_res t) (t_mdl t) (t_nscore t) firstscore1 (t_max t)
               (t_nargmax t) (t_nargmax t)).

Definition init_2d {V} (res mdl : list (list V)) (max0 : V)
    : state (list (list V)) V (nat * nat) :=
  mkState res mdl (#(-1))%T (#(-1))%T max0 (0, 0)%nat (0, 0)%nat.

Definition clean_2d_r (res ker mdl : list (list T)) (gain : T) (maxiter : Z)
    (tol : T) : Z * state (list (list T)) T (nat * nat) :=
  let dim1 := DIM0 res in
  let dim2 := DIM1 res in
  let q := q_2d_r ker dim1 dim2 in
  for_loop (iter_2d_r ker gain tol q dim1 dim2) maxiter (Z.to_nat maxiter) 0
           (init_2d res mdl (#0)%T).

(** *** Complex elements

    [CIND1R]/[CIND1I] and [CIND2R]/[CIND2I] address the two halves of one
    element; an element is the pair (real part, imaginary part). *)
Abbreviation C := (T * T)%type.

(** [ker * step], as lines 307-310 (and 225-228) spell it out. *)
Definition cmul (k step : C) : C :=
  (fst k * fst step - snd k * snd step, fst k * snd step + snd k * fst step)%T.

Definition csub (r x : C) : C := (fst r - fst x, snd r - snd x)%T.
Definition cadd (r x : C) : C := (fst r + fst x, snd r + snd x)%T.

(** [valr * valr + vali * vali]. *)
Definition cnorm2 (v : C) : T := (fst v * fst v + snd v * snd v)%T.

(** Lines 294-295 and 210-211: [qr /= mq; qi = -qi / mq]. *)
Definition cnormalize (mq : T) (q : C) : C := (fst q / mq, - snd q / mq)%T.

(** Lines 300-301 and 216-217. *)
Definition cstep (gain : T) (max q : C) : C :=
  (of_double prec emax gain * (fst max * fst q - snd max * snd q),
   of_double prec emax gain * (fst max * snd q + snd max * fst q))%T.

(** *** [clean_1d_c] *)

(** Kernel scan, lines 284-293. *)
Definition peak_1d_c (ker : list C) (dim : nat) : T * C :=
  foldl (fun a n =>
           let val := IND1 ker n in
           let mval := cnorm2 val in
           if (mval >? fst a)%T then (mval, val) else a)
        (#0, (#0, #0))%T (seq 0 dim).

Definition q_1d_c (ker : list C) (dim : nat) : C :=
  cnormalize (fst (peak_1d_c ker dim)) (snd (peak_1d_c ker dim)).

(** Lines 306-320. *)
Definition scan_1d_c (ker : list C) (step : C) (argmax dim : nat)
    (a : scan (list C) C nat) (n : nat) : scan (list C) C nat :=
  let wrap_n := wrap dim argmax n in
  let res := upd1 (fun r => csub r (cmul (IND1 ker n) step)) wrap_n (a_res a) in
  let val := IND1 res wrap_n in
  let mval := cnorm2 val in
  let nscore := (a_nscore a + mval)%T in
  if (mval >? a_mmax a)%T then mkScan res nscore mval val wrap_n
  else mkScan res nscore (a_mmax a) (a_max a) (a_nargmax a).

(** Lines 298-322. *)
Definition attempt_1d_c (ker : list C) (gain : T) (q : C) (dim : nat)
    (s : state (list C) C nat) : trial (list C) C nat :=
  let step := cstep gain (max s) q in
  let mdl1 := upd1 (fun m => cadd m step) (argmax s) (mdl s) in
  let a := foldl (scan_1d_c ker step (argmax s) dim)
                 (mkScan (res s) #0 #(-1) (max s) (nargmax s))%T (seq 0 dim) in
  mkTrial step mdl1 (a_res a) (sqrt (a_nscore a / #(to_int (Z.of_nat dim)))%T)
          (a_max a) (a_nargmax a).

(** The undo loop, lines 332-338. *)
Definition undo_1d_c (ker : list C) (step : C) (argmax dim : nat)
    (res : list C) : list C :=
  foldl (fun res n =>
           upd1 (fun r => cadd r (cmul (IND1 ker n) step)) (wrap dim argmax n) res)
        res (seq 0 dim).

(** Lines 297-346. *)
Definition iter_1d_c (ker : list C) (gain tol : T) (q : C) (dim : nat)
    (i : Z) (s : state (list C) C nat) : outcome (state (list C) C nat) :=
  let t := attempt_1d_c ker gain q dim s in
  let firstscore1 := set_first (firstscore s) (t_nscore t) in
  if diverged (score s) (t_nscore t) then
    Return (- i)
      (mkState (undo_1d_c ker (t_step t) (argmax s) dim (t_res t))
               (upd1 (fun m => csub m (t_step t)) (argmax s) (t_mdl t))
               (score s) firstscore1 (t_max t) (argmax s) (t_nargmax t))
  else if converged (score s) (t_nscore t) firstscore1 tol then
    Return i
      (mkState (t_res t) (t_mdl t) (score s) firstscore1 (t_max t) (argmax s)
               (t_nargmax t))
  else
    Continue
      (mkState (t_res t) (t_mdl t) (t_nscore t) firstscore1 (t_max t)
               (t_nargmax t) (t_nargmax t)).

Definition clean_1d_c (res ker mdl : list C) (gain : T) (maxiter : Z) (tol : T)
    : Z * state (list C) C nat :=
  let dim := DIM0 res in
  let q := q_1d_c ker dim in
  for_loop (iter_1d_c ker gain tol q dim) maxiter (Z.to_nat maxiter) 0
           (init_1d res mdl (#0, #0)%T).

(** *** [clean_2d_c] *)

(** Kernel scan, lines 199-209. *)
Definition peak_2d_c (ker : list (list C)) (dim1 dim2 : nat) : T * C :=
  foldl (fun a n1 =>
           foldl (fun a n2 =>
                    let val := IND2 ker n1 n2 in
                    let mval := cnorm2 val in
                    if (mval >? fst a)%T then (mval, val) else a)
                 a (seq 0 dim2))
        (#0, (#0, #0))%T (seq 0 dim1).

Definition q_2d_c (ker : list (list C)) (dim1 dim2 : nat) : C :=
  cnormalize (fst (peak_2d_c ker dim1 dim2)) (snd (peak_2d_c ker dim1 dim2)).

(** Lines 224-237. *)
Definition scan_2d_c (ker : list (list C)) (step : C) (argmax2 dim2 : nat)
    (n1 wrap_n1 : nat) (a : scan (list (list C)) C (nat * nat)) (n2 : nat)
    : scan (list (list C)) C (nat * nat) :=
  let wrap_n2 := wrap dim2 argmax2 n2 in
  let res :=
    upd2 (fun r => csub r (cmul (IND2 ker n1 n2) step)) wrap_n1 wrap_n2
         (a_res a) in
  let val := IND2 res wrap_n1 wrap_n2 in
  let mval := cnorm2 val in
  let nscore := (a_nscore a + mval)%T in
  if (mval >? a_mmax a)%T then mkScan res nscore mval val (wrap_n1, wrap_n2)
  else mkScan res nscore (a_mmax a) (a_max a) (a_nargmax a).

(** Lines 214-240. *)
Definition attempt_2d_c (ker : list (list C)) (gain : T) (q : C)
    (dim1 dim2 : nat) (s : state (list (list C)) C (nat * nat))
    : trial (list (list C)) C (nat * nat) :=
  let argmax1 := fst (argmax s) in
  let argmax2 := snd (argmax s) in
  let step := cstep gain (max s) q in
  let mdl1 := upd2 (fun m => cadd m step) argmax1 argmax2 (mdl s) in
  let a :=
    foldl (fun a n1 =>
             foldl (scan_2d_c ker step argmax2 dim2 n1 (wrap dim1 argmax1 n1))
                   a (seq 0 dim2))
          (mkScan (res s) #0 #(-1) (max s) (nargmax s))%T (seq 0 dim1) in
  mkTrial step mdl1 (a_res a)
          (sqrt (a_nscore a / #(to_int (Z.of_nat dim1 * Z.of_nat dim2)))%T)
          (a_max a) (a_nargmax a).

(** The undo loops, lines 250-259. *)
Definition undo_2d_c (ker : list (list C)) (step : C) (argmax : nat * nat)
    (dim1 dim2 : nat) (res : list (list C)) : list (list C) :=
  foldl (fun res n1 =>
           foldl (fun res n2 =>
                    upd2 (fun r => cadd r (cmul (IND2 ker n1 n2) step))
                         (wrap dim1 (fst argmax) n1)
                         (wrap dim2 (snd argmax) n2) res)
                 res (seq 0 dim2))
        res (seq 0 dim1).

(** Lines 213-267.  The branch that undoes the step (lines 246-259) holds no
    [return]: control leaves the [if] and reaches line 265,
    [score = nscore; argmax1 = nargmax1; argmax2 = nargmax2], and the loop
    goes on.  The [return -i] of line 263 follows [return i] and is never
    reached. *)
Definition iter_2d_c (ker : list (list C)) (gain tol : T) (q : C)
    (dim1 dim2 : nat) (i : Z) (s : state (list (list C)) C (nat * nat))
    : outcome (state (list (list C)) C (nat * nat)) :=
  let t := attempt_2d_c ker gain q dim1 dim2 s in
  let firstscore1 := set_first (firstscore s) (t_nscore t) in
  if diverged (score s) (t_nscore t) then
    Continue
      (mkState (undo_2d_c ker (t_step t) (argmax s) dim1 dim2 (t_res t))
               (upd2 (fun m => csub m (t_step t)) (fst (argmax s))
                     (snd (argmax s)) (t_mdl t))
               (t_nscore t) firstscore1 (t_max t) (t_nargmax t) (t_nargmax t))
  else if converged (score s) (t_nscore t) firstscore1 tol then
    Return i
      (mkState (t_res t) (t_mdl t) (score s) firstscore1 (t_max t) (argmax s)
               (t_nargmax t))
  else
    Continue
      (mkState (t_res t) (t_mdl t) (t_nscore t) firstscore1 (t_max t)
               (t_nargmax t) (t_nargmax t)).

Definition clean_2d_c (res ker mdl : list (list C)) (gain : T) (maxiter : Z)
    (tol : T) : Z * state (list (list C)) C (nat * nat) :=
  let dim1 := DIM0 res in
  let dim2 := DIM1 res in
  let q := q_2d_c ker dim1 dim2 in
  for_loop (iter_2d_c ker gain tol q dim1 dim2) maxiter (Z.to_nat maxiter) 0
           (init_2d res mdl (#0, #0)%T).

End Clean.

(** ** The wrapper [clean]

    The wrapper looks only at the descriptors of the three arrays: rank,
    extents and NumPy type number.  Its outcome is either the [ValueError] it
    raises or the instance of the core it calls. *)

Inductive NPY_TYPES : Type :=
  | NPY_FLOAT | NPY_DOUBLE | NPY_LONGDOUBLE
  | NPY_CFLOAT | NPY_CDOUBLE | NPY_CLONGDOUBLE
  | NPY_OTHER (type_num : Z).

#[global] Instance NPY_TYPES_eq_dec : EqDecision NPY_TYPES.
Proof. solve_decision. Defined.

Record PyArrayObject : Type := mkArray {
  nd : Z;
  dimensions : list Z;
  descr_type_num : NPY_TYPES
}.

Definition RANK (a : PyArrayObject) : Z := nd a.
Definition DIM (a : PyArrayObject) (i : nat) : Z := dimensions a !!! i.
Definition TYPE (a : PyArrayObject) : NPY_TYPES := descr_type_num a.

(** The instances of the template and its four members. *)
Inductive ctype : Type := c_float | c_double | c_long_double.
Inductive core : Type := core_1d_r | core_2d_r | core_1d_c | core_2d_c.

Inductive wrapped : Type :=
  | ValueError (msg : string)
  | Invoke (T : ctype) (f : core).

(** The [CHK_ARRAY_*] macros return from the wrapper when the test fails. *)
Definition CHK_ARRAY_RANK (name : string) (a : PyArrayObject) (r : Z)
    (rname : string) (k : wrapped) : wrapped :=
  if decide (RANK a <> r)
  then ValueError ("rank(" ++ name ++ ") != " ++ rname)
  else k.

Definition CHK_ARRAY_DIM (name : string) (a : PyArrayObject) (i : nat) (d : Z)
    (dname : string) (k : wrapped) : wrapped :=
  if decide (DIM a i <> d)
  then ValueError ("dim(" ++ name ++ ") != " ++ dname)
  else k.

(** Lines 382-427, reached with the local [rank]. *)
Definition dispatch (res ker mdl : PyArrayObject) (rank : Z) : wrapped :=
  if decide (TYPE res <> TYPE ker \/ TYPE res <> TYPE mdl)
  then ValueError "array types must match"
  else
    match TYPE res with
    | NPY_FLOAT =>
        if decide (rank = 1) then Invoke c_float core_1d_r
        else Invoke c_float core_2d_r
    | NPY_DOUBLE =>
        if decide (rank = 1) then Invoke c_double core_1d_r
        else Invoke c_double core_2d_r
    | NPY_LONGDOUBLE =>
        if decide (rank = 1) then Invoke c_long_double core_1d_r
        else Invoke c_long_double core_2d_r
    | NPY_CFLOAT =>
        if decide (rank = 1) then Invoke c_float core_1d_c
        else Invoke c_float core_2d_c
    | NPY_CDOUBLE =>
        if decide (rank = 1) then Invoke c_double core_1d_c
        else Invoke c_double core_2d_c
    | NPY_CLONGDOUBLE =>
        if decide (rank = 1) then Invoke c_long_double core_1d_c
        else Invoke c_long_double core_2d_c
    | NPY_OTHER _ => ValueError "Unsupported data type."
    end.

(** Lines 359-430, after the arguments have been parsed as three arrays.
    [rank] starts at 0 and is set only in the two branches. *)
Definition clean (res ker mdl : PyArrayObject) : wrapped :=
  if decide (RANK res = 1) then
    CHK_ARRAY_RANK "ker" ker 1 "1" (CHK_ARRAY_RANK "mdl" mdl 1 "1" (
    let dim1 := to_int (DIM res 0) in
    CHK_ARRAY_DIM "ker" ker 0 dim1 "dim1" (CHK_ARRAY_DIM "mdl" mdl 0 dim1 "dim1" (
    dispatch res ker mdl 1))))
  else if decide (RANK res = 2) then
    CHK_ARRAY_RANK "ker" ker 2 "2" (CHK_ARRAY_RANK "mdl" mdl 2 "2" (
    let dim1 := to_int (DIM res 0) in
    let dim2 := to_int (DIM res 1) in
    CHK_ARRAY_DIM "ker" ker 0 dim1 "dim1" (CHK_ARRAY_DIM "mdl" mdl 0 dim1 "dim1" (
    CHK_ARRAY_DIM "ker" ker 1 dim2 "dim2" (CHK_ARRAY_DIM "mdl" mdl 1 dim2 "dim2" (
    dispatch res ker mdl 2))))))
  else dispatch res ker mdl 0.

(** What section 6 of the specification asks of a call: one rank, 1 or 2, the
    same extents, one supported element kind. *)
Definition supported (t : NPY_TYPES) : Prop :=
  match t with NPY_OTHER _ => False | _ => True end.

Definition well_formed (a : PyArrayObject) : Prop :=
  0 <= nd a /\ length (dimensions a) = Z.to_nat (nd a) /\
  Forall (fun n => 0 <= n < 2 ^ 31) (dimensions a).

Definition valid_call (res ker mdl : PyArrayObject) : Prop :=
  (nd res = 1 \/ nd res = 2) /\ nd ker = nd res /\ nd mdl = nd res /\
  dimensions ker = dimensions res /\ dimensions mdl = dimensions res /\
  TYPE ker = TYPE res /\ TYPE mdl = TYPE res /\ supported (TYPE res).

(** ** Vocabulary of the specification *)

(** The sign bit of a scalar, when it has one. *)
Definition sign_bit (x : spec_float) : option bool :=
  match x with
  | S754_zero s | S754_infinity s | S754_finite s _ _ => Some s
  | S754_nan => None
  end.

(** [for n in ns: a[g n] = f n a[g n]]: a read-modify-write loop. *)
Definition sweep {A} (f : nat -> A -> A) (g : nat -> nat) (ns : list nat)
    (l : list A) : list A :=
  foldl (fun l n => alter (f n) (g n) l) l ns.


(** [for n1 in ns1: for n2 in ns2: a[g1 n1][g2 n2] = f n1 n2 a[g1 n1][g2 n2]]. *)
Definition sweep2 {A} (f : nat -> nat -> A -> A) (g1 g2 : nat -> nat)
    (ns1 ns2 : list nat) (a : list (list A)) : list (list A) :=
  foldl (fun a n1 => foldl (fun a n2 => upd2 (f n1 n2) (g1 n1) (g2 n2) a) a ns2)
        a ns1.

Section Vocabulary.
Variables prec emax : Z.
Context {B V I : Type}.
Variable body : Z -> state B V I -> outcome (state B V I).
Variable attempt : state B V I -> trial B V I.
Variable tol : spec_float.
Variable init : state B V I.

(** Neither test fires at the end of iteration [k], entered in state [sk]. *)
Definition silent (sk : state B V I) : Prop :=
  let nscore := t_nscore (attempt sk) in
  diverged prec emax (score sk) nscore = false /\
  converged prec emax (score sk) nscore
            (set_first prec emax (firstscore sk) nscore) tol = false.

(** Neither test fires during the first [maxiter] iterations. *)
Definition no_check_fires (maxiter : Z) : Prop :=
  forall k sk, (k < Z.to_nat maxiter)%nat ->
               state_at body k 0 init = Some sk -> silent sk.

(** The run [r] used up its budget: it returns [maxiter] and its buffers
    are the ones the last executed iteration computed (the inputs when no
    iteration was executed). *)
Definition exhausted (maxiter : Z) (r : Z * state B V I) : Prop :=
  fst r = maxiter /\
  (maxiter <= 0 -> res (snd r) = res init /\ mdl (snd r) = mdl init) /\
  (1 <= maxiter ->
   exists sl, state_at body (Z.to_nat (maxiter - 1)) 0 init = Some sl /\
              res (snd r) = t_res (attempt sl) /\
              mdl (snd r) = t_mdl (attempt sl)).
End Vocabulary.

(** ** The binary64 instance, [Clean<double>] *)

Module Double.
Definition prec : Z := 53.
Definition emax : Z := 1024.
(** The [double] of an integer and of a quotient of integers. *)
Definition d (n : Z) : spec_float := of_int prec emax n.
Definition dq (a b : Z) : spec_float := Tdiv prec emax (d a) (d b).
(** A complex number with no imaginary part. *)
Definition c (n : Z) : spec_float * spec_float := (d n, d 0).
(** The default [tol=.001]. *)
Definition tol : spec_float := dq 1 1000.
End Double.

(** A 2-D buffer of [dim1] rows of [dim2] elements. *)
Definition rectangular {A} (dim1 dim2 : nat) (a : list (list A)) : Prop :=
  length a = dim1 /\ Forall (fun row => length row = dim2) a.








(** The kernel elements a scan visits, in the order of the loops. *)
Definition elements_1d {V} `{Inhabited V} (ker : list V) (dim : nat) : list V :=
  IND1 ker <$> seq 0 dim.

Definition elements_2d {V} `{Inhabited V} (ker : list (list V)) (dim1 dim2 : nat)
    : list V :=
  n1 ← seq 0 dim1; IND2 ker n1 <$> seq 0 dim2.

(** One pass of a kernel scan, on the value read. *)
Definition peak_step {V} (norm2 : V -> spec_float) (a : spec_float * V) (val : V)
    : spec_float * V :=
  let mval := norm2 val in
  if Tgt mval (fst a) then (mval, val) else a.

(** [p], of squared magnitude [mq], is a peak of the elements [elems] under
    the squared magnitude [norm2]: no element has a larger one, and [p] is one
    of the elements, or the initial 0 when no element has a positive one. *)
Definition kernel_peak {V} (norm2 : V -> spec_float) (zero : V) (elems : list V)
    (mq : spec_float) (p : V) : Prop :=
  mq = norm2 p /\ (p ∈ elems \/ p = zero) /\
  forall v, v ∈ elems -> Tgt (norm2 v) mq = false.

(** Some element of [elems] has a squared magnitude above zero, as the scan
    computes it; and no element of [elems] has one above [mq]. *)
Definition some_positive {V} (norm2 : V -> spec_float) (elems : list V) : Prop :=
  exists v, v ∈ elems /\ SFltb (S754_zero false) (norm2 v) = true.

Definition none_above {V} (norm2 : V -> spec_float) (elems : list V)
    (mq : spec_float) : Prop :=
  forall v, v ∈ elems -> SFltb mq (norm2 v) = false.

(** ** Scenarios of the specification *)

(** The "toroidal wrap scenario" of section 8 at the format [prec]/[emax]:
    [dim=4], [kernel=[1,0,0,0]], [residual=[0,0,5,0]], [model=[0,0,0,0]],
    [gain=1.0], [max_iterations=1] and the default tolerance.  The first
    iteration has a zero step, leaves both buffers as they were, finds the
    peak 5 at index 2, and the call returns 1. *)
Definition toroidal_scenario (prec emax : Z) : Prop :=
  let z := of_int prec emax in
  let residual := [z 0; z 0; z 5; z 0] in
  let kernel := [z 1; z 0; z 0; z 0] in
  let model := [z 0; z 0; z 0; z 0] in
  let gain := Double.d 1 in
  let q := q_1d_r prec emax kernel 4 in
  let t := attempt_1d_r prec emax kernel gain q 4 (init_1d prec emax residual model (z 0)) in
  let r := clean_1d_r prec emax residual kernel model gain 1 Double.tol in
  q = z 1 /\ t_step t = z 0 /\
  t_mdl t = model /\ t_res t = residual /\
  t_nargmax t = 2%nat /\ t_max t = z 5 /\
  fst r = 1 /\ res (snd r) = residual /\ mdl (snd r) = model /\
  argmax (snd r) = 2%nat /\ max (snd r) = z 5.

(** ** A run that diverges at iteration 1

    A 1 x 4 complex image: [residual = [[1, 0, 0, 0]]],
    [kernel = [[1, 1, -1, -1]]], [model = 0], [gain = 1], the default
    tolerance, a budget of 5 iterations, in binary64.  [Real] holds the same
    data as a real image and [Flat] as a 1-D complex one. *)
Module Diverging.
Import Double.
Definition residual : list (list (spec_float * spec_float)) :=
  [[c 1; c 0; c 0; c 0]].
Definition kernel : list (list (spec_float * spec_float)) :=
  [[c 1; c 1; c (-1); c (-1)]].
Definition model : list (list (spec_float * spec_float)) :=
  [[c 0; c 0; c 0; c 0]].
Definition gain : spec_float := d 1.
Definition maxiter : Z := 5.
Definition q : spec_float * spec_float := q_2d_c prec emax kernel 1 4.
Definition body := iter_2d_c prec emax kernel gain tol q 1 4.
Definition attempt := attempt_2d_c prec emax kernel gain q 1 4.
Definition init := init_2d prec emax residual model (d 0, d 0).
Definition run := clean_2d_c prec emax residual kernel model gain maxiter tol.

Module Real.
Definition residual : list (list spec_float) := [[d 1; d 0; d 0; d 0]].
Definition kernel : list (list spec_float) := [[d 1; d 1; d (-1); d (-1)]].
Definition model : list (list spec_float) := [[d 0; d 0; d 0; d 0]].
Definition run := clean_2d_r prec emax residual kernel model gain maxiter tol.
End Real.

Module Flat.
Definition residual : list (spec_float * spec_float) := [c 1; c 0; c 0; c 0].
Definition kernel : list (spec_float * spec_float) := [c 1; c 1; c (-1); c (-1)].
Definition model : list (spec_float * spec_float) := [c 0; c 0; c 0; c 0].
Definition run := clean_1d_c prec emax residual kernel model gain maxiter tol.
End Flat.
End Diverging.

(** ** A residual with its peak at the last index

    A 1-D real call in binary32 on arrays of [m + 1] elements: the residual
    is [m] zeros and then a 1, the kernel a 1 and then [m] zeros, the model
    zeros, [gain = 1]. *)
Module LastPeak.
Definition zero : spec_float := of_int 24 128 0.
Definition one : spec_float := of_int 24 128 1.
Definition residual (m : nat) : list spec_float := replicate m zero ++ [one].
Definition kernel (m : nat) : list spec_float := one :: replicate m zero.
Definition model (m : nat) : list spec_float := replicate (S m) zero.
Definition gain : spec_float := Double.d 1.
End LastPeak.

(** ** Further vocabulary *)

(** The lengths of the two 1-D buffers of a state, and the shapes of the two
    2-D buffers. *)
Definition shape_1d {V I} (n m : nat) (s : state (list V) V I) : Prop :=
  length (res s) = n /\ length (mdl s) = m.

Definition shape_2d {V I} (d1 d2 m1 m2 : nat) (s : state (list (list V)) V I)
    : Prop :=
  rectangular d1 d2 (res s) /\ rectangular m1 m2 (mdl s).

(** Both peak indices of a state lie inside a buffer of [dim] elements, or of
    [dim1] x [dim2] elements. *)
Definition peak_inside_1d {B V} (dim : nat) (s : state B V nat) : Prop :=
  (argmax s < dim)%nat /\ (nargmax s < dim)%nat.

Definition peak_inside_2d {B V} (dim1 dim2 : nat) (s : state B V (nat * nat))
    : Prop :=
  ((fst (argmax s) < dim1)%nat /\ (snd (argmax s) < dim2)%nat) /\
  ((fst (nargmax s) < dim1)%nat /\ (snd (nargmax s) < dim2)%nat).


(** The run [r] accepted iteration [k], entered in state [sk]: it returns [k]
    and its buffers are the ones the iteration computed. *)
Definition accepted {B V I} (attempt : state B V I -> trial B V I) (k : nat)
    (sk : state B V I) (r : Z * state B V I) : Prop :=
  fst r = Z.of_nat k /\
  res (snd r) = t_res (attempt sk) /\ mdl (snd r) = t_mdl (attempt sk).

(** The instance of the template a NumPy type number stands for, and whether
    the type is complex. *)
Definition element_type (t : NPY_TYPES) : option ctype :=
  match t with
  | NPY_FLOAT | NPY_CFLOAT => Some c_float
  | NPY_DOUBLE | NPY_CDOUBLE => Some c_double
  | NPY_LONGDOUBLE | NPY_CLONGDOUBLE => Some c_long_double
  | NPY_OTHER _ => None
  end.

Definition is_complex (t : NPY_TYPES) : bool :=
  match t with
  | NPY_CFLOAT | NPY_CDOUBLE | NPY_CLONGDOUBLE => true
  | _ => false
  end.

(** The member of the template for a rank (1 or 2) and a type. *)
Definition core_for (rank : Z) (t : NPY_TYPES) : core :=
  match rank, is_complex t with
  | 1, false => core_1d_r
  | 1, true => core_1d_c
  | _, false => core_2d_r
  | _, true => core_2d_c
  end.

(** A zero of either sign. *)
Definition is_zero (x : spec_float) : Prop :=
  match x with S754_zero _ => True | _ => False end.








(** [p] is the first of the elements [elems] whose squared magnitude is
    [mq]: it stands in the list, and no element before it has that squared
    magnitude. *)
Definition first_with {V} (norm2 : V -> spec_float) (elems : list V)
    (mq : spec_float) (p : V) : Prop :=
  exists before after,
    elems = before ++ p :: after /\ norm2 p = mq /\
    forall u, u ∈ before -> norm2 u <> mq.

(** A 1-D state, scan and trial seen as those of the 2-D image with the
    single row they hold. *)
Definition as_row {V} (s : state (list V) V nat) : state (list (list V)) V (nat * nat) :=
  mkState [res s] [mdl s] (score s) (firstscore s) (max s)
          (0%nat, argmax s) (0%nat, nargmax s).

Definition scan_as_row {V} (a : scan (list V) V nat)
    : scan (list (list V)) V (nat * nat) :=
  mkScan [a_res a] (a_nscore a) (a_mmax a) (a_max a) (0%nat, a_nargmax a).

Definition outcome_map {S S'} (f : S -> S') (o : outcome S) : outcome S' :=
  match o with
  | Return rv s => Return rv (f s)
  | Continue s => Continue (f s)
  end.

(** * Properties *)

(** ** Facts about the scalars *)

Section ScalarFacts.
Variables prec emax : Z.

Lemma binary_round_aux_sign sx mx ex lx :
  binary_round_aux prec emax sx mx ex lx <> S754_nan ->
  sign_bit (binary_round_aux prec emax sx mx ex lx) = Some sx.
Proof.
  unfold binary_round_aux.
  destruct (shr_fexp prec emax mx ex lx) as [mrs' e'].
  destruct (shr_fexp prec emax _ e' loc_Exact) as [mrs'' e''].
  destruct (shr_m mrs''); intros H; [reflexivity | | congruence].
  destruct (e'' <=? emax - prec); reflexivity.
Qed.

Lemma binary_round_sign sx mx ex :
  binary_round prec emax sx mx ex <> S754_nan ->
  sign_bit (binary_round prec emax sx mx ex) = Some sx.
Proof.
  unfold binary_round. destruct (shl_align _ _ _). apply binary_round_aux_sign.
Qed.

Lemma of_int_0 : of_int prec emax 0 = S754_zero false.
Proof. reflexivity. Qed.

Lemma Tgt_zero_sign x :
  Tgt x (S754_zero false) = true -> sign_bit x = Some false.
Proof. destruct x as [[]|[]| |[] m e]; cbv; congruence. Qed.

(** The sentinel [-1] of [score] and [firstscore] is not [> 0] ... *)
Lemma sentinel_not_pos : Tgt (of_int prec emax (-1)) (of_int prec emax 0) = false.
Proof.
  rewrite of_int_0.
  destruct (Tgt (of_int prec emax (-1)) (S754_zero false)) eqn:E; [|done].
  apply Tgt_zero_sign in E. unfold of_int, binary_normalize in E.
  destruct (decide (binary_round prec emax true 1 0 = S754_nan)) as [N|N].
  - rewrite N in E. discriminate.
  - rewrite (binary_round_sign _ _ _ N) in E. discriminate.
Qed.

Lemma diverged_pos sc nsc :
  diverged prec emax sc nsc = true -> Tgt sc (of_int prec emax 0) = true.
Proof. unfold diverged. intros [? _]%andb_prop. done. Qed.

Lemma converged_pos sc nsc fs tol :
  converged prec emax sc nsc fs tol = true -> Tgt sc (of_int prec emax 0) = true.
Proof. unfold converged. intros [? _]%andb_prop. done. Qed.

(** ** [<] on [spec_float] is a strict order (NaN is unrelated to all) *)

Lemma SFltb_irrefl x : SFltb x x = false.
Proof.
  unfold SFltb.
  destruct x as [[]|[]| |[] m e]; simpl; try reflexivity;
    rewrite Z.compare_refl, Pos.compare_cont_spec, Pos.compare_refl;
    reflexivity.
Qed.

Lemma SFltb_trans x y z :
  SFltb x y = true -> SFltb y z = true -> SFltb x z = true.
Proof.
  unfold SFltb.
  destruct x as [[]|[]| |[] m1 e1], y as [[]|[]| |[] m2 e2],
           z as [[]|[]| |[] m3 e3]; simpl; try congruence;
    rewrite !Pos.compare_cont_spec; unfold Pos.switch_Eq;
    destruct (Z.compare_spec e1 e2), (Z.compare_spec e2 e3),
             (Z.compare_spec e1 e3);
    try congruence; try lia; subst;
    destruct (Pos.compare_spec m1 m2), (Pos.compare_spec m2 m3),
             (Pos.compare_spec m1 m3);
    simpl; try congruence; try lia.
Qed.

(** A running maximum stays one when it is raised. *)
Lemma Tgt_raise m m' a :
  Tgt a m = false -> Tgt m' m = true -> Tgt a m' = false.
Proof.
  unfold Tgt. intros Ha Hm. destruct (SFltb m' a) eqn:E; [|done].
  rewrite (SFltb_trans _ _ _ Hm E) in Ha. discriminate.
Qed.
End ScalarFacts.

(** ** The loop driver *)

Section Loop.
Context {S : Type}.
Variable body : Z -> S -> outcome S.

(** A run either uses up its [n] iterations or returns from one of them. *)
Lemma for_loop_cases m n i s :
  (exists sn, state_at body n i s = Some sn /\ for_loop body m n i s = (m, sn)) \/
  (exists k sk rv s', (k < n)%nat /\ state_at body k i s = Some sk /\
      body (i + Z.of_nat k) sk = Return rv s' /\
      for_loop body m n i s = (rv, s')).
Proof.
  revert i s. induction n as [|n IH]; intros i s; simpl.
  - left. eauto.
  - destruct (body i s) as [rv s'|s1] eqn:E.
    + right. exists 0%nat, s, rv, s'. simpl. rewrite Z.add_0_r.
      repeat split; [lia | done].
    + destruct (IH (i + 1) s1) as [(sn & H1 & H2)|(k & sk & rv & s' & Hk & H1 & H2 & H3)].
      * left. eauto.
      * right. exists (Datatypes.S k), sk, rv, s'. simpl. rewrite E.
        replace (i + Z.of_nat (Datatypes.S k)) with (i + 1 + Z.of_nat k) by lia.
        repeat split; [lia | done..].
Qed.

Lemma state_at_succ k i s s' :
  state_at body (Datatypes.S k) i s = Some s' <->
  exists sk, state_at body k i s = Some sk /\ body (i + Z.of_nat k) sk = Continue s'.
Proof.
  revert i s. induction k as [|k IH]; intros i s.
  - simpl. rewrite Z.add_0_r. destruct (body i s) eqn:E; split.
    + discriminate.
    + intros (sk & [= <-] & H). congruence.
    + intros [= <-]. eauto.
    + intros (sk & [= <-] & H). congruence.
  - change (state_at body (Datatypes.S (Datatypes.S k)) i s)
      with (match body i s with
            | Return _ _ => None
            | Continue s1 => state_at body (Datatypes.S k) (i + 1) s1
            end).
    change (state_at body (Datatypes.S k) i s)
      with (match body i s with
            | Return _ _ => None
            | Continue s1 => state_at body k (i + 1) s1
            end).
    replace (i + Z.of_nat (Datatypes.S k)) with (i + 1 + Z.of_nat k) by lia.
    destruct (body i s) as [|s1].
    + split; [discriminate | intros (sk & [=] & _)].
    + apply IH.
Qed.

Lemma state_at_earlier k j i s sk :
  state_at body k i s = Some sk -> (j <= k)%nat -> is_Some (state_at body j i s).
Proof.
  revert j i s. induction k as [|k IH]; intros j i s H Hj.
  - assert (j = 0%nat) as -> by lia. eauto.
  - destruct j as [|j]; [simpl; eauto|]. simpl in *.
    destruct (body i s); [discriminate|]. apply (IH j _ _ H). lia.
Qed.

(** What every [Continue] preserves holds at the start of every iteration. *)
Lemma state_at_invariant (P : S -> Prop) :
  (forall i s s', P s -> body i s = Continue s' -> P s') ->
  forall k i s sk, P s -> state_at body k i s = Some sk -> P sk.
Proof.
  intros Hstep. induction k as [|k IH]; intros i s sk Hs H; simpl in H.
  - congruence.
  - destruct (body i s) as [|s1] eqn:E; [discriminate|]. eauto.
Qed.

(** If the body only returns its own index, up to sign, and cannot return
    from the first iteration, the loop never returns 0. *)
Lemma for_loop_nonzero m s :
  1 <= m ->
  (forall i s rv s', body i s = Return rv s' -> rv = i \/ rv = - i) ->
  (forall rv s', body 0 s <> Return rv s') ->
  1 <= Z.abs (fst (for_loop body m (Z.to_nat m) 0 s)).
Proof.
  intros Hm Hrv H0.
  destruct (for_loop_cases m (Z.to_nat m) 0 s)
    as [(sn & _ & ->)|(k & sk & rv & s' & Hk & H1 & H2 & ->)]; simpl; [lia|].
  destruct k as [|k].
  - simpl in H1. injection H1 as <-. simpl in H2. by apply H0 in H2.
  - apply Hrv in H2. lia.
Qed.

(** A run whose iterations all fall through returns [m] in the state the
    last of them leaves. *)
Lemma for_loop_exhausts m n i s :
  (forall k sk, (k < n)%nat -> state_at body k i s = Some sk ->
                exists s', body (i + Z.of_nat k) sk = Continue s') ->
  exists sn, state_at body n i s = Some sn /\ for_loop body m n i s = (m, sn).
Proof.
  intros Hq.
  destruct (for_loop_cases m n i s)
    as [H|(k & sk & rv & s' & Hk & H1 & H2 & _)]; [done|].
  destruct (Hq k sk Hk H1) as [s1 E]. congruence.
Qed.
End Loop.

(** ** Wrapped indices *)

Lemma wrap_lt dim a n : (0 < dim)%nat -> (wrap dim a n < dim)%nat.
Proof. intros. unfold wrap. apply Nat.mod_upper_bound. lia. Qed.

Lemma wrap_inj dim a n m :
  (n < dim)%nat -> (m < dim)%nat -> wrap dim a n = wrap dim a m -> n = m.
Proof.
  unfold wrap. intros Hn Hm E.
  pose proof (Nat.div_mod_eq (n + a) dim) as H1.
  pose proof (Nat.div_mod_eq (m + a) dim) as H2.
  rewrite E in H1.
  generalize dependent ((n + a) / dim)%nat; intros q1 H1.
  generalize dependent ((m + a) / dim)%nat; intros q2 H2.
  destruct (Nat.lt_trichotomy q1 q2) as [?|[->|?]]; [nia | lia | nia].
Qed.

Lemma wrap_surj dim a j :
  (j < dim)%nat -> exists n, (n < dim)%nat /\ wrap dim a n = j.
Proof.
  intros Hj. exists ((j + (dim - a mod dim)) mod dim)%nat. split.
  - apply Nat.mod_upper_bound. lia.
  - unfold wrap. rewrite Nat.Div0.add_mod_idemp_l.
    rewrite <- Nat.Div0.add_mod_idemp_r.
    pose proof (Nat.mod_upper_bound a dim ltac:(lia)).
    replace (j + (dim - a mod dim) + a mod dim)%nat with (j + 1 * dim)%nat by lia.
    rewrite Nat.Div0.mod_add. apply Nat.mod_small. lia.
Qed.

Lemma NoDup_wrap dim a : NoDup (wrap dim a <$> seq 0 dim).
Proof.
  apply NoDup_fmap_2_strong; [|apply NoDup_seq].
  intros x y [_ Hx]%elem_of_seq [_ Hy]%elem_of_seq. apply wrap_inj; lia.
Qed.

Lemma to_int_small z : 0 <= z < 2 ^ 31 -> to_int z = z.
Proof. intros Hz. unfold to_int. rewrite Z.mod_small; lia. Qed.

(** On an axis of at most 2^30 elements the sum [n + argmax] fits an [int],
    and the index the code computes is the position [wrap] gives. *)
Lemma wrap_n_wrap dim a n :
  Z.of_nat dim <= 2 ^ 30 -> (n < dim)%nat -> (a < dim)%nat ->
  wrap_n (Z.of_nat dim) (Z.of_nat a) (Z.of_nat n) = Z.of_nat (wrap dim a n).
Proof.
  intros Hd Hn Ha. unfold wrap_n, wrap.
  rewrite to_int_small by lia. rewrite Z.rem_mod_nonneg by lia.
  by rewrite Nat2Z.inj_mod, Nat2Z.inj_add.
Qed.


(** ** Read-modify-write loops over a buffer *)

Section Sweep.
Context {A : Type}.
Variables (f : nat -> A -> A) (g : nat -> nat).

Lemma sweep_cons n ns l : sweep f g (n :: ns) l = sweep f g ns (alter (f n) (g n) l).
Proof. reflexivity. Qed.

Lemma sweep_length ns l : length (sweep f g ns l) = length l.
Proof.
  revert l. induction ns as [|n ns IH]; intros l; [done|].
  rewrite sweep_cons, IH. apply length_alter.
Qed.

Lemma sweep_other ns l j : j ∉ g <$> ns -> sweep f g ns l !! j = l !! j.
Proof.
  revert l. induction ns as [|n ns IH]; intros l Hj; [done|].
  rewrite fmap_cons in Hj. apply not_elem_of_cons in Hj as [Hne Hj].
  rewrite sweep_cons, IH by done.
  apply list_lookup_alter_ne. congruence.
Qed.

Lemma sweep_lookup ns l n :
  NoDup (g <$> ns) -> n ∈ ns -> sweep f g ns l !! g n = f n <$> l !! g n.
Proof.
  revert l. induction ns as [|n0 ns IH]; intros l Hnd Hn.
  - by apply elem_of_nil in Hn.
  - rewrite fmap_cons in Hnd. apply NoDup_cons in Hnd as [Hfresh Hnd].
    rewrite sweep_cons. apply elem_of_cons in Hn as [->|Hn].
    + rewrite sweep_other by done. apply list_lookup_alter_eq.
    + rewrite IH by done. rewrite list_lookup_alter_ne; [done|].
      intros E. apply Hfresh. rewrite E. by apply list_elem_of_fmap_2.
Qed.
End Sweep.

(** A loop that rewrites one slot [i] is one rewrite of that slot. *)
Lemma foldl_alter_same {A} (h : nat -> A -> A) (i : nat) ns (l : list A) :
  foldl (fun l n => alter (h n) i l) l ns
  = alter (fun x => foldl (fun x n => h n x) x ns) i l.
Proof.
  revert l. induction ns as [|n ns IH]; intros l; simpl.
  - symmetry. apply list_alter_id. done.
  - rewrite IH, list_alter_alter_eq. done.
Qed.

Lemma sweep2_rows {A} (f : nat -> nat -> A -> A) g1 g2 ns1 ns2 (a : list (list A)) :
  sweep2 f g1 g2 ns1 ns2 a = sweep (fun n1 => sweep (f n1) g2 ns2) g1 ns1 a.
Proof.
  unfold sweep2, sweep at 1. revert a.
  induction ns1 as [|n1 ns1 IH]; intros a; simpl; [done|].
  rewrite <- IH. f_equal. unfold upd2. apply foldl_alter_same.
Qed.

Lemma sweep2_length {A} (f : nat -> nat -> A -> A) g1 g2 ns1 ns2 (a : list (list A)) :
  length (sweep2 f g1 g2 ns1 ns2 a) = length a.
Proof. rewrite sweep2_rows. apply sweep_length. Qed.

Lemma sweep2_row_length {A} (f : nat -> nat -> A -> A) g1 g2 ns1 ns2
    (a : list (list A)) (d2 : nat) :
  Forall (fun row => length row = d2) a ->
  Forall (fun row => length row = d2) (sweep2 f g1 g2 ns1 ns2 a).
Proof.
  rewrite sweep2_rows. revert a.
  induction ns1 as [|n1 ns1 IH]; intros a Ha; [done|].
  rewrite sweep_cons. apply IH. apply Forall_alter; [done|].
  intros row _ <-. apply sweep_length.
Qed.


Lemma sweep_wrap_lookup {A} (f : nat -> A -> A) (dim a n : nat) (l : list A) :
  (n < dim)%nat ->
  sweep f (wrap dim a) (seq 0 dim) l !! wrap dim a n = f n <$> l !! wrap dim a n.
Proof.
  intros. apply sweep_lookup; [apply NoDup_wrap|apply elem_of_seq; lia].
Qed.

(** ** The four loops *)

Section CleanFacts.
Variables prec emax : Z.

Notation "x + y" := (Tadd prec emax x y) : T_scope.
Notation "x - y" := (Tsub prec emax x y) : T_scope.
Notation "x * y" := (Tmul prec emax x y) : T_scope.
Notation "x / y" := (Tdiv prec emax x y) : T_scope.
Notation "x >? y" := (Tgt x y) : T_scope.
Notation "# n" := (of_int prec emax n) (at level 1, format "# n") : T_scope.

(** *** The scoring loop rewrites the residual as a sweep *)

Lemma scan_1d_r_res ker step a dim ns acc :
  a_res (foldl (scan_1d_r prec emax ker step a dim) acc ns)
  = sweep (fun n r => r - IND1 ker n * step)%T (wrap dim a) ns (a_res acc).
Proof.
  revert acc. induction ns as [|n ns IH]; intros acc; [done|].
  rewrite sweep_cons. simpl. rewrite IH. f_equal.
  unfold scan_1d_r. destruct (Tgt _ _); reflexivity.
Qed.

Lemma scan_1d_c_res ker step a dim ns acc :
  a_res (foldl (scan_1d_c prec emax ker step a dim) acc ns)
  = sweep (fun n r => csub prec emax r (cmul prec emax (IND1 ker n) step))
          (wrap dim a) ns (a_res acc).
Proof.
  revert acc. induction ns as [|n ns IH]; intros acc; [done|].
  rewrite sweep_cons. simpl. rewrite IH. f_equal.
  unfold scan_1d_c. destruct (Tgt _ _); reflexivity.
Qed.

Lemma scan_2d_r_res ker step a1 a2 dim1 dim2 ns1 ns2 acc :
  a_res (foldl (fun acc n1 =>
                  foldl (scan_2d_r prec emax ker step a2 dim2 n1 (wrap dim1 a1 n1))
                        acc ns2) acc ns1)
  = sweep2 (fun n1 n2 r => r - IND2 ker n1 n2 * step)%T
           (wrap dim1 a1) (wrap dim2 a2) ns1 ns2 (a_res acc).
Proof.
  unfold sweep2. revert acc.
  induction ns1 as [|n1 ns1 IH]; intros acc; [done|].
  simpl. rewrite IH. f_equal. clear IH. revert acc.
  induction ns2 as [|n2 ns2 IH]; intros acc; [done|].
  simpl. rewrite IH. f_equal.
  unfold scan_2d_r. destruct (Tgt _ _); reflexivity.
Qed.

Lemma scan_2d_c_res ker step a1 a2 dim1 dim2 ns1 ns2 acc :
  a_res (foldl (fun acc n1 =>
                  foldl (scan_2d_c prec emax ker step a2 dim2 n1 (wrap dim1 a1 n1))
                        acc ns2) acc ns1)
  = sweep2 (fun n1 n2 r => csub prec emax r (cmul prec emax (IND2 ker n1 n2) step))
           (wrap dim1 a1) (wrap dim2 a2) ns1 ns2 (a_res acc).
Proof.
  unfold sweep2. revert acc.
  induction ns1 as [|n1 ns1 IH]; intros acc; [done|].
  simpl. rewrite IH. f_equal. clear IH. revert acc.
  induction ns2 as [|n2 ns2 IH]; intros acc; [done|].
  simpl. rewrite IH. f_equal.
  unfold scan_2d_c. destruct (Tgt _ _); reflexivity.
Qed.

Lemma attempt_1d_r_res ker gain q dim s :
  t_res (attempt_1d_r prec emax ker gain q dim s)
  = sweep (fun n r => r - IND1 ker n * t_step (attempt_1d_r prec emax ker gain q dim s))%T
          (wrap dim (argmax s)) (seq 0 dim) (res s).
Proof. unfold attempt_1d_r. simpl. apply scan_1d_r_res. Qed.




(** *** The two tests *)



Lemma iter_1d_r_Return ker gain tol q dim i s rv s' :
  iter_1d_r prec emax ker gain tol q dim i s = Return rv s' ->
  (score s >? #0)%T = true /\ (rv = i \/ rv = - i).
Proof.
  unfold iter_1d_r.
  destruct (diverged _ _ _ _) eqn:D; [|destruct (converged _ _ _ _ _ _) eqn:Cv];
    intros [= <- <-]; eauto using diverged_pos, converged_pos.
Qed.

Lemma iter_2d_r_Return ker gain tol q dim1 dim2 i s rv s' :
  iter_2d_r prec emax ker gain tol q dim1 dim2 i s = Return rv s' ->
  (score s >? #0)%T = true /\ (rv = i \/ rv = - i).
Proof.
  unfold iter_2d_r.
  destruct (diverged _ _ _ _) eqn:D; [|destruct (converged _ _ _ _ _ _) eqn:Cv];
    intros [= <- <-]; eauto using diverged_pos, converged_pos.
Qed.

Lemma iter_1d_c_Return ker gain tol q dim i s rv s' :
  iter_1d_c prec emax ker gain tol q dim i s = Return rv s' ->
  (score s >? #0)%T = true /\ (rv = i \/ rv = - i).
Proof.
  unfold iter_1d_c.
  destruct (diverged _ _ _ _) eqn:D; [|destruct (converged _ _ _ _ _ _) eqn:Cv];
    intros [= <- <-]; eauto using diverged_pos, converged_pos.
Qed.

(** [clean_2d_c] returns from the second test only. *)
Lemma iter_2d_c_Return ker gain tol q dim1 dim2 i s rv s' :
  iter_2d_c prec emax ker gain tol q dim1 dim2 i s = Return rv s' ->
  (score s >? #0)%T = true /\ rv = i.
Proof.
  unfold iter_2d_c.
  destruct (diverged _ _ _ _) eqn:D; [|destruct (converged _ _ _ _ _ _) eqn:Cv];
    intros [= <- <-]; eauto using converged_pos.
Qed.

End CleanFacts.

(** ** The return value *)

(** C10: with [max_iterations >= 1] no call returns 0.  Each of the four loops
    returns either [maxiter] or, from one of the two tests, the index of the
    iteration up to sign; both tests ask for [score > 0], which fails on the
    sentinel [-1] of iteration 0.  So the absolute value of the result is at
    least 1. *)
Theorem clean_never_returns_zero (prec emax maxiter : Z) :
  1 <= maxiter ->
  (forall res ker mdl gain tol,
      1 <= Z.abs (fst (clean_1d_r prec emax res ker mdl gain maxiter tol))) /\
  (forall res ker mdl gain tol,
      1 <= Z.abs (fst (clean_2d_r prec emax res ker mdl gain maxiter tol))) /\
  (forall res ker mdl gain tol,
      1 <= Z.abs (fst (clean_1d_c prec emax res ker mdl gain maxiter tol))) /\
  (forall res ker mdl gain tol,
      1 <= Z.abs (fst (clean_2d_c prec emax res ker mdl gain maxiter tol))).
Proof.
  intros Hm. split_and!; intros res0 ker mdl0 gain tol.
  - apply for_loop_nonzero; [done|..].
    + intros i s rv s' H. by apply iter_1d_r_Return in H as [_ ?].
    + intros rv s' H. apply iter_1d_r_Return in H as [H _].
      cbn [score init_1d init_2d] in H. by rewrite sentinel_not_pos in H.
  - apply for_loop_nonzero; [done|..].
    + intros i s rv s' H. by apply iter_2d_r_Return in H as [_ ?].
    + intros rv s' H. apply iter_2d_r_Return in H as [H _].
      cbn [score init_1d init_2d] in H. by rewrite sentinel_not_pos in H.
  - apply for_loop_nonzero; [done|..].
    + intros i s rv s' H. by apply iter_1d_c_Return in H as [_ ?].
    + intros rv s' H. apply iter_1d_c_Return in H as [H _].
      cbn [score init_1d init_2d] in H. by rewrite sentinel_not_pos in H.
  - apply for_loop_nonzero; [done|..].
    + intros i s rv s' H. apply iter_2d_c_Return in H as [_ ?]. by left.
    + intros rv s' H. apply iter_2d_c_Return in H as [H _].
      cbn [score init_1d init_2d] in H. by rewrite sentinel_not_pos in H.
Qed.

Lemma clean_never_returns_zero_witness :
  1 <= 3 /\
  1 <= Z.abs (fst (clean_2d_c 53 1024
                     [[Double.c 1; Double.c 0]; [Double.c 0; Double.c 0]]
                     [[Double.c 1; Double.c 1]; [Double.c (-1); Double.c (-1)]]
                     [[Double.c 0; Double.c 0]; [Double.c 0; Double.c 0]]
                     (Double.d 1) 3 Double.tol)).
Proof.
  split; [lia|].
  apply (clean_never_returns_zero 53 1024 3); lia.
Defined.

(** C9: the toroidal wrap scenario, in each of the three precisions.  [max]
    starts at 0, so the step of iteration 0 is [gain * 0 * q = 0]; the
    iteration changes neither buffer and only finds the peak at index 2; the
    call returns 1. *)
Theorem toroidal_wrap_scenario :
  toroidal_scenario 24 128 /\ toroidal_scenario 53 1024 /\
  toroidal_scenario 64 16384.
Proof. repeat split; vm_compute; reflexivity. Qed.

(** ** Running out of budget *)

Section Exhausted.
Variables prec emax : Z.
Context {B V I : Type}.
Variable body : Z -> state B V I -> outcome (state B V I).
Variable attempt : state B V I -> trial B V I.
Variable tol : spec_float.
Variable init : state B V I.

(** The body keeps the step of a silent iteration. *)
Hypothesis body_silent :
  forall i s, silent prec emax attempt tol s ->
    exists s', body i s = Continue s' /\
               res s' = t_res (attempt s) /\ mdl s' = t_mdl (attempt s).

Lemma silent_run_exhausted maxiter :
  no_check_fires prec emax body attempt tol init maxiter ->
  exhausted body attempt init maxiter
            (for_loop body maxiter (Z.to_nat maxiter) 0 init).
Proof using body_silent.
  intros Hq.
  destruct (for_loop_exhausts body maxiter (Z.to_nat maxiter) 0 init)
    as (sn & Hsn & ->).
  { intros k sk Hk Hsk. destruct (body_silent (0 + Z.of_nat k) sk) as (s' & E & _);
      eauto. }
  split; [done|]. split; simpl.
  - intros Hle. replace (Z.to_nat maxiter) with 0%nat in Hsn by lia.
    injection Hsn as <-. done.
  - intros Hge. replace (Z.to_nat maxiter)
      with (Datatypes.S (Z.to_nat (maxiter - 1))) in Hsn by lia.
    apply state_at_succ in Hsn as (sl & Hsl & E).
    exists sl. split; [done|].
    destruct (body_silent (0 + Z.of_nat (Z.to_nat (maxiter - 1))) sl)
      as (s' & E' & Hr & Hm).
    { apply (Hq (Z.to_nat (maxiter - 1)) sl); [lia | done]. }
    rewrite E in E'. injection E' as <-. done.
Qed.
End Exhausted.

Lemma iter_1d_r_silent prec emax ker gain tol q dim i s :
  silent prec emax (attempt_1d_r prec emax ker gain q dim) tol s ->
  exists s', iter_1d_r prec emax ker gain tol q dim i s = Continue s' /\
             res s' = t_res (attempt_1d_r prec emax ker gain q dim s) /\
             mdl s' = t_mdl (attempt_1d_r prec emax ker gain q dim s).
Proof. intros [D Cv]. unfold iter_1d_r. rewrite D, Cv. eauto. Qed.

Lemma iter_2d_r_silent prec emax ker gain tol q dim1 dim2 i s :
  silent prec emax (attempt_2d_r prec emax ker gain q dim1 dim2) tol s ->
  exists s', iter_2d_r prec emax ker gain tol q dim1 dim2 i s = Continue s' /\
             res s' = t_res (attempt_2d_r prec emax ker gain q dim1 dim2 s) /\
             mdl s' = t_mdl (attempt_2d_r prec emax ker gain q dim1 dim2 s).
Proof. intros [D Cv]. unfold iter_2d_r. rewrite D, Cv. eauto. Qed.

Lemma iter_1d_c_silent prec emax ker gain tol q dim i s :
  silent prec emax (attempt_1d_c prec emax ker gain q dim) tol s ->
  exists s', iter_1d_c prec emax ker gain tol q dim i s = Continue s' /\
             res s' = t_res (attempt_1d_c prec emax ker gain q dim s) /\
             mdl s' = t_mdl (attempt_1d_c prec emax ker gain q dim s).
Proof. intros [D Cv]. unfold iter_1d_c. rewrite D, Cv. eauto. Qed.

Lemma iter_2d_c_silent prec emax ker gain tol q dim1 dim2 i s :
  silent prec emax (attempt_2d_c prec emax ker gain q dim1 dim2) tol s ->
  exists s', iter_2d_c prec emax ker gain tol q dim1 dim2 i s = Continue s' /\
             res s' = t_res (attempt_2d_c prec emax ker gain q dim1 dim2 s) /\
             mdl s' = t_mdl (attempt_2d_c prec emax ker gain q dim1 dim2 s).
Proof. intros [D Cv]. unfold iter_2d_c. rewrite D, Cv. eauto. Qed.

(** C8: when neither the divergence test nor the convergence test fires in
    the first [maxiter] iterations, each of the four loops returns exactly
    [maxiter], and the residual and the model it leaves are the ones computed
    by the last executed iteration, number [maxiter - 1]. *)
Theorem budget_exhausted (prec emax maxiter : Z) :
  (forall res ker mdl gain tol,
      let dim := DIM0 res in
      let q := q_1d_r prec emax ker dim in
      let init := init_1d prec emax res mdl (of_int prec emax 0) in
      no_check_fires prec emax (iter_1d_r prec emax ker gain tol q dim)
                     (attempt_1d_r prec emax ker gain q dim) tol init maxiter ->
      exhausted (iter_1d_r prec emax ker gain tol q dim)
                (attempt_1d_r prec emax ker gain q dim) init maxiter
                (clean_1d_r prec emax res ker mdl gain maxiter tol)) /\
  (forall res ker mdl gain tol,
      let dim1 := DIM0 res in
      let dim2 := DIM1 res in
      let q := q_2d_r prec emax ker dim1 dim2 in
      let init := init_2d prec emax res mdl (of_int prec emax 0) in
      no_check_fires prec emax (iter_2d_r prec emax ker gain tol q dim1 dim2)
                     (attempt_2d_r prec emax ker gain q dim1 dim2) tol init maxiter ->
      exhausted (iter_2d_r prec emax ker gain tol q dim1 dim2)
                (attempt_2d_r prec emax ker gain q dim1 dim2) init maxiter
                (clean_2d_r prec emax res ker mdl gain maxiter tol)) /\
  (forall res ker mdl gain tol,
      let dim := DIM0 res in
      let q := q_1d_c prec emax ker dim in
      let init := init_1d prec emax res mdl (of_int prec emax 0, of_int prec emax 0) in
      no_check_fires prec emax (iter_1d_c prec emax ker gain tol q dim)
                     (attempt_1d_c prec emax ker gain q dim) tol init maxiter ->
      exhausted (iter_1d_c prec emax ker gain tol q dim)
                (attempt_1d_c prec emax ker gain q dim) init maxiter
                (clean_1d_c prec emax res ker mdl gain maxiter tol)) /\
  (forall res ker mdl gain tol,
      let dim1 := DIM0 res in
      let dim2 := DIM1 res in
      let q := q_2d_c prec emax ker dim1 dim2 in
      let init := init_2d prec emax res mdl (of_int prec emax 0, of_int prec emax 0) in
      no_check_fires prec emax (iter_2d_c prec emax ker gain tol q dim1 dim2)
                     (attempt_2d_c prec emax ker gain q dim1 dim2) tol init maxiter ->
      exhausted (iter_2d_c prec emax ker gain tol q dim1 dim2)
                (attempt_2d_c prec emax ker gain q dim1 dim2) init maxiter
                (clean_2d_c prec emax res ker mdl gain maxiter tol)).
Proof.
  split_and!; intros res0 ker mdl0 gain tol; cbv zeta; intros Hq.
  - apply (silent_run_exhausted prec emax _ _ tol); [|done].
    intros. by apply iter_1d_r_silent.
  - apply (silent_run_exhausted prec emax _ _ tol); [|done].
    intros. by apply iter_2d_r_silent.
  - apply (silent_run_exhausted prec emax _ _ tol); [|done].
    intros. by apply iter_1d_c_silent.
  - apply (silent_run_exhausted prec emax _ _ tol); [|done].
    intros. by apply iter_2d_c_silent.
Qed.

Lemma budget_exhausted_witness :
  let l := of_int 64 16384 in
  let residual := [l 1; l 0; l 0; l 0] in
  let kernel := [l 1; l 0; l 0; l 0] in
  let model := [l 0; l 0; l 0; l 0] in
  let gain := Double.dq 1 2 in
  let tol := Double.dq 3 8 in
  let q := q_1d_r 64 16384 kernel 4 in
  exhausted (iter_1d_r 64 16384 kernel gain tol q 4)
            (attempt_1d_r 64 16384 kernel gain q 4)
            (init_1d 64 16384 residual model (l 0)) 2
            (clean_1d_r 64 16384 residual kernel model gain 2 tol).
Proof.
  cbv zeta.
  apply (proj1 (budget_exhausted 64 16384 2)
           [of_int 64 16384 1; of_int 64 16384 0; of_int 64 16384 0; of_int 64 16384 0]
           [of_int 64 16384 1; of_int 64 16384 0; of_int 64 16384 0; of_int 64 16384 0]
           [of_int 64 16384 0; of_int 64 16384 0; of_int 64 16384 0; of_int 64 16384 0]
           (Double.dq 1 2) (Double.dq 3 8)).
  intros k sk Hk Hs.
  destruct k as [|[|k]]; [| |simpl in Hk; lia];
    vm_compute in Hs; injection Hs as <-; split; vm_compute; reflexivity.
Defined.

(** ** The residual update *)

Lemma undo_1d_r_sweep prec emax ker step a dim l :
  undo_1d_r prec emax ker step a dim l
  = sweep (fun n r => Tadd prec emax r (Tmul prec emax (IND1 ker n) step))
          (wrap dim a) (seq 0 dim) l.
Proof. reflexivity. Qed.

Lemma undo_1d_c_sweep prec emax ker step a dim l :
  undo_1d_c prec emax ker step a dim l
  = sweep (fun n r => cadd prec emax r (cmul prec emax (IND1 ker n) step))
          (wrap dim a) (seq 0 dim) l.
Proof. reflexivity. Qed.

Lemma undo_2d_r_sweep prec emax ker step a dim1 dim2 l :
  undo_2d_r prec emax ker step a dim1 dim2 l
  = sweep2 (fun n1 n2 r => Tadd prec emax r (Tmul prec emax (IND2 ker n1 n2) step))
           (wrap dim1 (fst a)) (wrap dim2 (snd a)) (seq 0 dim1) (seq 0 dim2) l.
Proof. reflexivity. Qed.

Lemma undo_2d_c_sweep prec emax ker step a dim1 dim2 l :
  undo_2d_c prec emax ker step a dim1 dim2 l
  = sweep2 (fun n1 n2 r => cadd prec emax r (cmul prec emax (IND2 ker n1 n2) step))
           (wrap dim1 (fst a)) (wrap dim2 (snd a)) (seq 0 dim1) (seq 0 dim2) l.
Proof. reflexivity. Qed.

Lemma sweep2_rectangular {A} (f : nat -> nat -> A -> A) g1 g2 ns1 ns2 dim1 dim2
    (a : list (list A)) :
  rectangular dim1 dim2 a -> rectangular dim1 dim2 (sweep2 f g1 g2 ns1 ns2 a).
Proof.
  intros [H1 H2]. split; [by rewrite sweep2_length | by apply sweep2_row_length].
Qed.






(** The scoring loops move [nargmax] to wrapped indices only. *)
Lemma scan_1d_r_nargmax prec emax ker step a dim ns acc :
  (0 < dim)%nat -> (a_nargmax acc < dim)%nat ->
  (a_nargmax (foldl (scan_1d_r prec emax ker step a dim) acc ns) < dim)%nat.
Proof.
  intros Hd. revert acc. induction ns as [|n ns IH]; intros acc Ha; [done|].
  simpl. apply IH. unfold scan_1d_r.
  destruct (Tgt _ _); simpl; [by apply wrap_lt | done].
Qed.

Lemma scan_1d_c_nargmax prec emax ker step a dim ns acc :
  (0 < dim)%nat -> (a_nargmax acc < dim)%nat ->
  (a_nargmax (foldl (scan_1d_c prec emax ker step a dim) acc ns) < dim)%nat.
Proof.
  intros Hd. revert acc. induction ns as [|n ns IH]; intros acc Ha; [done|].
  simpl. apply IH. unfold scan_1d_c.
  destruct (Tgt _ _); simpl; [by apply wrap_lt | done].
Qed.

Lemma scan_2d_r_nargmax prec emax ker step a1 a2 dim1 dim2 ns1 ns2 acc :
  (0 < dim1)%nat -> (0 < dim2)%nat ->
  (fst (a_nargmax acc) < dim1)%nat /\ (snd (a_nargmax acc) < dim2)%nat ->
  let r := foldl (fun acc n1 =>
                    foldl (scan_2d_r prec emax ker step a2 dim2 n1 (wrap dim1 a1 n1))
                          acc ns2) acc ns1 in
  (fst (a_nargmax r) < dim1)%nat /\ (snd (a_nargmax r) < dim2)%nat.
Proof.
  intros Hd1 Hd2. cbv zeta. revert acc.
  induction ns1 as [|n1 ns1 IH]; intros acc Ha; [done|].
  simpl. apply IH. clear IH. revert acc Ha.
  induction ns2 as [|n2 ns2 IH]; intros acc Ha; [done|].
  simpl. apply IH. unfold scan_2d_r.
  destruct (Tgt _ _); simpl; [split; by apply wrap_lt | done].
Qed.

Lemma scan_2d_c_nargmax prec emax ker step a1 a2 dim1 dim2 ns1 ns2 acc :
  (0 < dim1)%nat -> (0 < dim2)%nat ->
  (fst (a_nargmax acc) < dim1)%nat /\ (snd (a_nargmax acc) < dim2)%nat ->
  let r := foldl (fun acc n1 =>
                    foldl (scan_2d_c prec emax ker step a2 dim2 n1 (wrap dim1 a1 n1))
                          acc ns2) acc ns1 in
  (fst (a_nargmax r) < dim1)%nat /\ (snd (a_nargmax r) < dim2)%nat.
Proof.
  intros Hd1 Hd2. cbv zeta. revert acc.
  induction ns1 as [|n1 ns1 IH]; intros acc Ha; [done|].
  simpl. apply IH. clear IH. revert acc Ha.
  induction ns2 as [|n2 ns2 IH]; intros acc Ha; [done|].
  simpl. apply IH. unfold scan_2d_c.
  destruct (Tgt _ _); simpl; [split; by apply wrap_lt | done].
Qed.

Lemma iter_1d_r_peak_inside prec emax ker gain tol q dim i s s' :
  (0 < dim)%nat -> peak_inside_1d dim s ->
  iter_1d_r prec emax ker gain tol q dim i s = Continue s' ->
  peak_inside_1d dim s'.
Proof.
  intros Hd [Ha Hn]. unfold iter_1d_r, peak_inside_1d.
  destruct (diverged _ _ _ _); [discriminate|].
  destruct (converged _ _ _ _ _ _); intros [= <-]; simpl.
  split; by apply scan_1d_r_nargmax.
Qed.

Lemma iter_1d_c_peak_inside prec emax ker gain tol q dim i s s' :
  (0 < dim)%nat -> peak_inside_1d dim s ->
  iter_1d_c prec emax ker gain tol q dim i s = Continue s' ->
  peak_inside_1d dim s'.
Proof.
  intros Hd [Ha Hn]. unfold iter_1d_c, peak_inside_1d.
  destruct (diverged _ _ _ _); [discriminate|].
  destruct (converged _ _ _ _ _ _); intros [= <-]; simpl.
  split; by apply scan_1d_c_nargmax.
Qed.

Lemma iter_2d_r_peak_inside prec emax ker gain tol q dim1 dim2 i s s' :
  (0 < dim1)%nat -> (0 < dim2)%nat -> peak_inside_2d dim1 dim2 s ->
  iter_2d_r prec emax ker gain tol q dim1 dim2 i s = Continue s' ->
  peak_inside_2d dim1 dim2 s'.
Proof.
  intros Hd1 Hd2 [Ha Hn]. unfold iter_2d_r, peak_inside_2d.
  destruct (diverged _ _ _ _); [discriminate|].
  destruct (converged _ _ _ _ _ _); intros [= <-]; simpl.
  split; by apply scan_2d_r_nargmax.
Qed.

Lemma iter_2d_c_peak_inside prec emax ker gain tol q dim1 dim2 i s s' :
  (0 < dim1)%nat -> (0 < dim2)%nat -> peak_inside_2d dim1 dim2 s ->
  iter_2d_c prec emax ker gain tol q dim1 dim2 i s = Continue s' ->
  peak_inside_2d dim1 dim2 s'.
Proof.
  intros Hd1 Hd2 [Ha Hn]. unfold iter_2d_c, peak_inside_2d.
  destruct (diverged _ _ _ _); [|destruct (converged _ _ _ _ _ _)];
    intros [= <-]; simpl; split; by apply scan_2d_c_nargmax.
Qed.

(** The peak indices stay inside a buffer that is not empty. *)
Lemma state_at_peak_inside_1d_r prec emax ker gain tol q dim res0 mdl0 max0 k sk :
  (0 < dim)%nat ->
  state_at (iter_1d_r prec emax ker gain tol q dim) k 0
           (init_1d prec emax res0 mdl0 max0) = Some sk ->
  peak_inside_1d dim sk.
Proof.
  intros Hd Hk.
  refine (state_at_invariant _ (peak_inside_1d dim) _ _ _ _ _ _ Hk); [|by split].
  intros i s s' Hs E. by eapply iter_1d_r_peak_inside.
Qed.

Lemma state_at_peak_inside_1d_c prec emax ker gain tol q dim res0 mdl0 max0 k sk :
  (0 < dim)%nat ->
  state_at (iter_1d_c prec emax ker gain tol q dim) k 0
           (init_1d prec emax res0 mdl0 max0) = Some sk ->
  peak_inside_1d dim sk.
Proof.
  intros Hd Hk.
  refine (state_at_invariant _ (peak_inside_1d dim) _ _ _ _ _ _ Hk); [|by split].
  intros i s s' Hs E. by eapply iter_1d_c_peak_inside.
Qed.

Lemma state_at_peak_inside_2d_r prec emax ker gain tol q dim1 dim2 res0 mdl0 max0
    k sk :
  (0 < dim1)%nat -> (0 < dim2)%nat ->
  state_at (iter_2d_r prec emax ker gain tol q dim1 dim2) k 0
           (init_2d prec emax res0 mdl0 max0) = Some sk ->
  peak_inside_2d dim1 dim2 sk.
Proof.
  intros Hd1 Hd2 Hk.
  refine (state_at_invariant _ (peak_inside_2d dim1 dim2) _ _ _ _ _ _ Hk);
    [|by repeat split].
  intros i s s' Hs E. by eapply iter_2d_r_peak_inside.
Qed.

Lemma state_at_peak_inside_2d_c prec emax ker gain tol q dim1 dim2 res0 mdl0 max0
    k sk :
  (0 < dim1)%nat -> (0 < dim2)%nat ->
  state_at (iter_2d_c prec emax ker gain tol q dim1 dim2) k 0
           (init_2d prec emax res0 mdl0 max0) = Some sk ->
  peak_inside_2d dim1 dim2 sk.
Proof.
  intros Hd1 Hd2 Hk.
  refine (state_at_invariant _ (peak_inside_2d dim1 dim2) _ _ _ _ _ _ Hk);
    [|by repeat split].
  intros i s s' Hs E. by eapply iter_2d_c_peak_inside.
Qed.







(** ** Rolling a step back *)






Section RollBack.
Context {V : Type} `{Inhabited V}.
Variables add sub mul : V -> V -> V.


End RollBack.





(** ** The normalization constant *)

Section Peak.
Variables prec emax : Z.
Context {V : Type}.
Variable norm2 : V -> spec_float.

Lemma peak_scan q0 vs :
  let r := foldl (peak_step norm2) (norm2 q0, q0) vs in
  kernel_peak norm2 q0 vs (fst r) (snd r) /\ Tgt (norm2 q0) (fst r) = false.
Proof.
  unfold kernel_peak.
  induction vs as [|v vs IH] using rev_ind; cbv zeta.
  - simpl. split_and!; [done|by right| |apply SFltb_irrefl].
    intros v Hv. by apply elem_of_nil in Hv.
  - rewrite foldl_snoc. cbv zeta in IH.
    destruct (foldl (peak_step norm2) (norm2 q0, q0) vs) as [mq q]. simpl in IH.
    destruct IH as ((Hmq & Hq & Hmax) & H0). unfold peak_step. simpl.
    destruct (Tgt (norm2 v) mq) eqn:E; simpl.
    + split_and!; [done|left; apply elem_of_app; right; by apply list_elem_of_singleton| |by eapply Tgt_raise].
      intros u [Hu|Hu]%elem_of_app.
      * eapply Tgt_raise; eauto.
      * apply list_elem_of_singleton in Hu as ->. apply SFltb_irrefl.
    + split_and!; [done|destruct Hq; [left; apply elem_of_app; by left|by right]| |done].
      intros u [Hu|Hu]%elem_of_app; [eauto|].
      by apply list_elem_of_singleton in Hu as ->.
Qed.
End Peak.

Lemma peak_scan_first {V} (norm2 : V -> spec_float) q0 vs :
  let r := foldl (peak_step norm2) (norm2 q0, q0) vs in
  r = (norm2 q0, q0) \/ first_with norm2 vs (fst r) (snd r).
Proof.
  cbv zeta. induction vs as [|v vs IH] using rev_ind; [by left|].
  rewrite foldl_snoc.
  pose proof (peak_scan norm2 q0 vs) as [(_ & _ & Hmax) _]. cbv zeta in Hmax.
  destruct (foldl (peak_step norm2) (norm2 q0, q0) vs) as [mq q] eqn:Er.
  cbn [fst snd] in *. unfold peak_step. cbn [fst].
  destruct (Tgt (norm2 v) mq) eqn:E.
  - right. exists vs, []. cbn [fst snd]. split_and!; [done..|].
    intros u Hu Heq. specialize (Hmax u Hu). congruence.
  - destruct IH as [IH|(before & after & -> & Hp & Hb)]; [by left|right].
    exists before, (after ++ [v]). cbn [fst snd].
    split_and!; [by rewrite <- app_assoc|done..].
Qed.

(** The scan on a kernel with an element of positive squared magnitude, and
    on one without. *)
Lemma peak_scan_positive {V} (norm2 : V -> spec_float) q0 vs :
  norm2 q0 = S754_zero false -> some_positive norm2 vs ->
  let r := foldl (peak_step norm2) (norm2 q0, q0) vs in
  first_with norm2 vs (fst r) (snd r) /\ none_above norm2 vs (fst r).
Proof.
  intros H0 (v & Hv & Hpos). cbv zeta.
  pose proof (peak_scan norm2 q0 vs) as [(_ & _ & Hmax) _]. cbv zeta in Hmax.
  split; [|exact Hmax].
  destruct (peak_scan_first norm2 q0 vs) as [E|F]; [|done].
  specialize (Hmax v Hv). rewrite E in Hmax. cbn [fst] in Hmax.
  unfold Tgt in Hmax. rewrite H0 in Hmax. congruence.
Qed.

Lemma peak_scan_none {V} (norm2 : V -> spec_float) q0 vs :
  norm2 q0 = S754_zero false -> ~ some_positive norm2 vs ->
  foldl (peak_step norm2) (norm2 q0, q0) vs = (norm2 q0, q0).
Proof.
  intros H0. induction vs as [|v vs IH]; intros Hn; [done|].
  cbn [foldl].
  assert (peak_step norm2 (norm2 q0, q0) v = (norm2 q0, q0)) as ->.
  { unfold peak_step. cbn [fst].
    destruct (Tgt (norm2 v) (norm2 q0)) eqn:E; [|done].
    exfalso. apply Hn. exists v. split; [apply list_elem_of_here|].
    unfold Tgt in E. by rewrite H0 in E. }
  apply IH. intros (u & Hu & Hpos). apply Hn.
  exists u. split; [by apply list_elem_of_further|done].
Qed.


Lemma zero_norm2 prec emax :
  of_int prec emax 0 = Tmul prec emax (of_int prec emax 0) (of_int prec emax 0).
Proof. reflexivity. Qed.

Lemma zero_cnorm2 prec emax :
  of_int prec emax 0 = cnorm2 prec emax (of_int prec emax 0, of_int prec emax 0).
Proof. reflexivity. Qed.

Lemma peak_1d_r_scan prec emax ker dim :
  peak_1d_r prec emax ker dim
  = foldl (peak_step (fun v => Tmul prec emax v v))
          (Tmul prec emax (of_int prec emax 0) (of_int prec emax 0), of_int prec emax 0)
          (elements_1d ker dim).
Proof. unfold elements_1d. rewrite foldl_fmap. reflexivity. Qed.

Lemma peak_1d_c_scan prec emax ker dim :
  peak_1d_c prec emax ker dim
  = foldl (peak_step (cnorm2 prec emax))
          (cnorm2 prec emax (of_int prec emax 0, of_int prec emax 0),
           (of_int prec emax 0, of_int prec emax 0))
          (elements_1d ker dim).
Proof. unfold elements_1d. rewrite foldl_fmap. reflexivity. Qed.

Lemma foldl_bind {A B C} (f : A -> B -> A) (g : C -> list B) (l : list C) (a : A) :
  foldl f a (l ≫= g) = foldl (fun a x => foldl f a (g x)) a l.
Proof.
  revert a. induction l as [|x l IH]; intros a; [done|].
  rewrite bind_cons, foldl_app. simpl. apply IH.
Qed.

Lemma foldl_pointwise {A B} (f g : A -> B -> A) (l : list B) (a : A) :
  (forall a b, f a b = g a b) -> foldl f a l = foldl g a l.
Proof.
  intros E. revert a. induction l as [|b l IH]; intros a; [done|].
  simpl. rewrite E. apply IH.
Qed.

Lemma peak_2d_r_scan prec emax ker dim1 dim2 :
  peak_2d_r prec emax ker dim1 dim2
  = foldl (peak_step (fun v => Tmul prec emax v v))
          (Tmul prec emax (of_int prec emax 0) (of_int prec emax 0), of_int prec emax 0)
          (elements_2d ker dim1 dim2).
Proof.
  unfold elements_2d. rewrite foldl_bind. unfold peak_2d_r.
  apply foldl_pointwise. intros a n1. rewrite foldl_fmap. reflexivity.
Qed.

Lemma peak_2d_c_scan prec emax ker dim1 dim2 :
  peak_2d_c prec emax ker dim1 dim2
  = foldl (peak_step (cnorm2 prec emax))
          (cnorm2 prec emax (of_int prec emax 0, of_int prec emax 0),
           (of_int prec emax 0, of_int prec emax 0))
          (elements_2d ker dim1 dim2).
Proof.
  unfold elements_2d. rewrite foldl_bind. unfold peak_2d_c.
  apply foldl_pointwise. intros a n1. rewrite foldl_fmap. reflexivity.
Qed.

(** The reciprocal of the real peak keeps the sign of the peak. *)
Lemma recip_sign prec emax p :
  Tdiv prec emax (of_int prec emax 1) p <> S754_nan ->
  sign_bit (Tdiv prec emax (of_int prec emax 1) p) = sign_bit p.
Proof.
  unfold Tdiv, of_int, binary_normalize.
  pose proof (binary_round_sign prec emax false 1 0) as H1.
  destruct (binary_round prec emax false 1 0) as [s|s| |s m e];
    destruct p as [sy|sy| |sy my ey]; simpl; intros Hq; try done;
    try (injection (H1 ltac:(discriminate)) as ->; done).
  injection (H1 ltac:(discriminate)) as ->. revert Hq.
  destruct (SFdiv_core_binary _ _ _ _ _ _) as [[mz ez] lz].
  intros Hq. by rewrite (binary_round_aux_sign _ _ _ _ _ _ Hq).
Qed.

(** C6, with what happens when no square is positive.  When some element of
    the kernel has a squared magnitude (squared modulus for complex kernels)
    above zero, as the scan computes it, the single scan leaves in [(mq, p)]
    the first element [p] of the kernel whose squared magnitude [mq] no
    element exceeds.  For a real kernel [q = 1 / p], on the raw value of the
    peak, so [q] has the sign of [p]; for a complex kernel
    [q = (re p / |p|^2, - im p / |p|^2)], the conjugate of the peak divided
    by its squared modulus.  When no element has a positive square (zeros,
    NaNs, or values whose squares underflow to zero) the peak stays the
    initial 0, whatever the kernel holds: [q = 1 / 0] for a real kernel and
    [q = (0/0, -0/0)], two NaNs, for a complex one. *)
Theorem kernel_normalization (prec emax : Z) :
  let zero := S754_zero false in
  let one := of_int prec emax 1 in
  let sq := fun v : spec_float => SFmul prec emax v v in
  let sqc := fun v : spec_float * spec_float =>
    SFadd prec emax (SFmul prec emax (fst v) (fst v))
                    (SFmul prec emax (snd v) (snd v)) in
  (forall ker dim,
      let elems := elements_1d ker dim in
      let mq := fst (peak_1d_r prec emax ker dim) in
      let p := snd (peak_1d_r prec emax ker dim) in
      let q := q_1d_r prec emax ker dim in
      (some_positive sq elems ->
       first_with sq elems mq p /\ none_above sq elems mq /\
       q = SFdiv prec emax one p /\
       (q <> S754_nan -> sign_bit q = sign_bit p)) /\
      (~ some_positive sq elems ->
       p = zero /\ q = SFdiv prec emax one zero)) /\
  (forall ker dim1 dim2,
      let elems := elements_2d ker dim1 dim2 in
      let mq := fst (peak_2d_r prec emax ker dim1 dim2) in
      let p := snd (peak_2d_r prec emax ker dim1 dim2) in
      let q := q_2d_r prec emax ker dim1 dim2 in
      (some_positive sq elems ->
       first_with sq elems mq p /\ none_above sq elems mq /\
       q = SFdiv prec emax one p /\
       (q <> S754_nan -> sign_bit q = sign_bit p)) /\
      (~ some_positive sq elems ->
       p = zero /\ q = SFdiv prec emax one zero)) /\
  (forall ker dim,
      let elems := elements_1d ker dim in
      let mq := fst (peak_1d_c prec emax ker dim) in
      let p := snd (peak_1d_c prec emax ker dim) in
      let q := q_1d_c prec emax ker dim in
      (some_positive sqc elems ->
       first_with sqc elems mq p /\ none_above sqc elems mq /\
       q = (SFdiv prec emax (fst p) (sqc p),
            SFdiv prec emax (SFopp (snd p)) (sqc p))) /\
      (~ some_positive sqc elems ->
       p = (zero, zero) /\ q = (S754_nan, S754_nan))) /\
  (forall ker dim1 dim2,
      let elems := elements_2d ker dim1 dim2 in
      let mq := fst (peak_2d_c prec emax ker dim1 dim2) in
      let p := snd (peak_2d_c prec emax ker dim1 dim2) in
      let q := q_2d_c prec emax ker dim1 dim2 in
      (some_positive sqc elems ->
       first_with sqc elems mq p /\ none_above sqc elems mq /\
       q = (SFdiv prec emax (fst p) (sqc p),
            SFdiv prec emax (SFopp (snd p)) (sqc p))) /\
      (~ some_positive sqc elems ->
       p = (zero, zero) /\ q = (S754_nan, S754_nan))).
Proof.
  cbv zeta. split_and!.
  - intros ker dim. unfold q_1d_r. rewrite peak_1d_r_scan. split.
    + intros Hp.
      destruct (peak_scan_positive (fun v => Tmul prec emax v v) (of_int prec emax 0)
                  (elements_1d ker dim) eq_refl Hp) as [Hf Hm].
      split_and!; [done|done|done|apply recip_sign].
    + intros Hn.
      rewrite (peak_scan_none (fun v => Tmul prec emax v v) (of_int prec emax 0)
                 (elements_1d ker dim) eq_refl Hn).
      done.
  - intros ker dim1 dim2. unfold q_2d_r. rewrite peak_2d_r_scan. split.
    + intros Hp.
      destruct (peak_scan_positive (fun v => Tmul prec emax v v) (of_int prec emax 0)
                  (elements_2d ker dim1 dim2) eq_refl Hp) as [Hf Hm].
      split_and!; [done|done|done|apply recip_sign].
    + intros Hn.
      rewrite (peak_scan_none (fun v => Tmul prec emax v v) (of_int prec emax 0)
                 (elements_2d ker dim1 dim2) eq_refl Hn).
      done.
  - intros ker dim. unfold q_1d_c, cnormalize. rewrite peak_1d_c_scan. split.
    + intros Hp.
      destruct (peak_scan_positive (cnorm2 prec emax)
                  (of_int prec emax 0, of_int prec emax 0)
                  (elements_1d ker dim) eq_refl Hp) as [Hf Hm].
      split_and!; [done|done|].
      destruct Hf as (before & after & _ & <- & _). done.
    + intros Hn.
      rewrite (peak_scan_none (cnorm2 prec emax)
                 (of_int prec emax 0, of_int prec emax 0)
                 (elements_1d ker dim) eq_refl Hn).
      done.
  - intros ker dim1 dim2. unfold q_2d_c, cnormalize. rewrite peak_2d_c_scan. split.
    + intros Hp.
      destruct (peak_scan_positive (cnorm2 prec emax)
                  (of_int prec emax 0, of_int prec emax 0)
                  (elements_2d ker dim1 dim2) eq_refl Hp) as [Hf Hm].
      split_and!; [done|done|].
      destruct Hf as (before & after & _ & <- & _). done.
    + intros Hn.
      rewrite (peak_scan_none (cnorm2 prec emax)
                 (of_int prec emax 0, of_int prec emax 0)
                 (elements_2d ker dim1 dim2) eq_refl Hn).
      done.
Qed.

(** C6 as it is written fails when the squares underflow.  In binary32 the
    kernel of the single element [x = 2^-80] has [x * x = 0], which is not
    above the initial [mq = 0]: the scan keeps the initial peak 0, which is
    not an element of the kernel, and [q = 1 / 0] is [+infinity], not
    [1 / x = 2^80]. *)
Lemma tiny_kernel_has_no_peak :
  let x := binary_normalize 24 128 1 (-80) false in
  let ker := [x] in
  elements_1d ker 1 = [x] /\
  SFmul 24 128 x x = S754_zero false /\
  snd (peak_1d_r 24 128 ker 1) = S754_zero false /\
  snd (peak_1d_r 24 128 ker 1) <> x /\
  q_1d_r 24 128 ker 1 = S754_infinity false /\
  SFdiv 24 128 (of_int 24 128 1) x = binary_normalize 24 128 1 80 false /\
  q_1d_r 24 128 ker 1 <> SFdiv 24 128 (of_int 24 128 1) x.
Proof. cbv zeta. split_and!; vm_compute; congruence. Qed.

(** A negative peak gives a negative constant: the kernel [0.5, -2, 1] has
    [q = -0.5]. *)
Example negative_peak :
  q_1d_r 53 1024 [Double.dq 1 2; Double.d (-2); Double.d 1] 3 = Double.dq (-1) 2.
Proof. vm_compute. reflexivity. Qed.

(** ** The wrapper *)

Lemma dispatch_invalid res ker mdl rank :
  ~ (TYPE ker = TYPE res /\ TYPE mdl = TYPE res /\ supported (TYPE res)) ->
  exists msg, dispatch res ker mdl rank = ValueError msg.
Proof.
  intros Hn. unfold dispatch. case_decide as Ht; [eauto|].
  destruct (TYPE res) eqn:E; eauto;
    exfalso; apply Hn; split_and!; try done;
    destruct (decide (TYPE ker = TYPE res)), (decide (TYPE mdl = TYPE res));
    try congruence; exfalso; apply Ht; rewrite E in *; auto.
Qed.

(** With a residual of rank 1 or 2 the wrapper does what section 6 asks:
    every call that is not valid raises [ValueError] and no core is called. *)
Lemma clean_rejects_invalid res ker mdl :
  well_formed res -> well_formed ker -> well_formed mdl ->
  nd res = 1 \/ nd res = 2 ->
  ~ valid_call res ker mdl ->
  exists msg, clean res ker mdl = ValueError msg.
Proof.
  intros (_ & Lr & Fr) (Nk & Lk & Fk) (Nm & Lm & Fm) Hrank Hinv.
  unfold clean, CHK_ARRAY_RANK, CHK_ARRAY_DIM, RANK, DIM.
  destruct Hrank as [R|R]; rewrite R in *.
  - rewrite decide_True by done.
    case_decide as Rk; [eauto|]. case_decide as Rm; [eauto|].
    try apply dec_stable in Rk. try apply dec_stable in Rm. rewrite Rk in Lk. rewrite Rm in Lm.
    destruct (dimensions res) as [|r0 [|]] eqn:Er; try discriminate.
    destruct (dimensions ker) as [|k0 [|]] eqn:Ek; try discriminate.
    destruct (dimensions mdl) as [|m0 [|]] eqn:Em; try discriminate.
    apply Forall_cons in Fr as [Fr _]. cbn. rewrite (to_int_small r0 Fr).
    case_decide as Dk; [eauto|]. case_decide as Dm; [eauto|].
    try apply dec_stable in Dk. try apply dec_stable in Dm. subst k0 m0.
    apply dispatch_invalid. intros (T1 & T2 & T3). apply Hinv.
    unfold valid_call. rewrite R, Rk, Rm, Er, Ek, Em. auto 10.
  - rewrite decide_False by lia. rewrite decide_True by done.
    case_decide as Rk; [eauto|]. case_decide as Rm; [eauto|].
    try apply dec_stable in Rk. try apply dec_stable in Rm. rewrite Rk in Lk. rewrite Rm in Lm.
    destruct (dimensions res) as [|r0 [|r1 [|]]] eqn:Er; try discriminate.
    destruct (dimensions ker) as [|k0 [|k1 [|]]] eqn:Ek; try discriminate.
    destruct (dimensions mdl) as [|m0 [|m1 [|]]] eqn:Em; try discriminate.
    apply Forall_cons in Fr as [Fr0 Fr]. apply Forall_cons in Fr as [Fr1 _].
    cbn. rewrite (to_int_small r0 Fr0), (to_int_small r1 Fr1).
    case_decide as Dk0; [eauto|]. case_decide as Dm0; [eauto|].
    case_decide as Dk1; [eauto|]. case_decide as Dm1; [eauto|].
    try apply dec_stable in Dk0. try apply dec_stable in Dm0.
    try apply dec_stable in Dk1. try apply dec_stable in Dm1. subst k0 m0 k1 m1.
    apply dispatch_invalid. intros (T1 & T2 & T3). apply Hinv.
    unfold valid_call. rewrite R, Rk, Rm, Er, Ek, Em. auto 10.
Qed.

(** C5 fails on the code: a residual of rank 3 takes neither branch of lines
    370-381, [rank] stays 0, no check is made, and the dispatch calls the 2-D
    real core.  The three arrays are well formed and the call is not valid. *)
Theorem rank_three_reaches_core :
  let a := mkArray 3 [2; 2; 2] NPY_FLOAT in
  well_formed a /\ ~ valid_call a a a /\
  clean a a a = Invoke c_float core_2d_r /\
  (forall ker mdl, TYPE ker = NPY_FLOAT -> TYPE mdl = NPY_FLOAT ->
                   clean a ker mdl = Invoke c_float core_2d_r).
Proof.
  cbv zeta. split_and!.
  - split_and!; [done|done|]. repeat constructor; done.
  - intros ([H|H] & _); discriminate.
  - reflexivity.
  - intros ker mdl Hk Hm. unfold clean, dispatch. simpl.
    rewrite Hk, Hm. rewrite decide_False by (intros [?|?]; done). done.
Qed.

(** ** The divergence branch of [clean_2d_c] *)

(** C1 fails on [clean_2d_c]: in the run [Diverging.run] iteration 1 starts
    with a committed score ([score > 0]) and gets a larger [nscore], so the
    divergence test fires; the step is undone, but the loop goes on: the body
    ends in [Continue] with [nscore] and the new [argmax] committed, and the
    call returns 2 from a later iteration.  On the same data [clean_2d_r] and
    [clean_1d_c] return [-1]. *)
Theorem clean_2d_c_divergence_not_returned :
  exists s1,
    state_at Diverging.body 1 0 Diverging.init = Some s1 /\
    Tgt (score s1) (Double.d 0) = true /\
    Tgt (t_nscore (Diverging.attempt s1)) (score s1) = true /\
    diverged 53 1024 (score s1) (t_nscore (Diverging.attempt s1)) = true /\
    (exists s2,
        Diverging.body 1 s1 = Continue s2 /\
        res s2 = res s1 /\ mdl s2 = mdl s1 /\
        score s2 = t_nscore (Diverging.attempt s1) /\
        argmax s2 = t_nargmax (Diverging.attempt s1) /\
        argmax s2 <> argmax s1) /\
    fst Diverging.run = 2 /\
    fst Diverging.Real.run = -1 /\
    fst Diverging.Flat.run = -1.
Proof.
  eexists. split; [vm_compute; reflexivity|].
  split_and!; try (vm_compute; reflexivity).
  eexists. split; [vm_compute; reflexivity|].
  split_and!; try (vm_compute; reflexivity). vm_compute. discriminate.
Qed.

(** C3 fails on [clean_2d_c]: [Diverging.run] returns 2 from the convergence
    test of iteration 2, whose step is kept; but the inequality
    [(score - nscore) / firstscore < tol] already held at iteration 1, after a
    committed score, where the undone step had made the residual worse. *)
Theorem clean_2d_c_convergence_not_first :
  exists s1 s2,
    state_at Diverging.body 1 0 Diverging.init = Some s1 /\
    state_at Diverging.body 2 0 Diverging.init = Some s2 /\
    Diverging.body 2 s2 = Return 2 (snd Diverging.run) /\
    fst Diverging.run = 2 /\
    converged 53 1024 (score s2) (t_nscore (Diverging.attempt s2))
              (set_first 53 1024 (firstscore s2) (t_nscore (Diverging.attempt s2)))
              Double.tol = true /\
    res (snd Diverging.run) = t_res (Diverging.attempt s2) /\
    mdl (snd Diverging.run) = t_mdl (Diverging.attempt s2) /\
    Tgt (score s1) (Double.d 0) = true /\
    Tlt (Tdiv 53 1024
           (Tsub 53 1024 (score s1) (t_nscore (Diverging.attempt s1)))
           (set_first 53 1024 (firstscore s1) (t_nscore (Diverging.attempt s1))))
        Double.tol = true.
Proof.
  do 2 eexists. split; [vm_compute; reflexivity|].
  split; [vm_compute; reflexivity|].
  split_and!; vm_compute; reflexivity.
Qed.

(** C4 fails on [clean_2d_c]: in [Diverging.run] the score committed by
    iteration 1 is larger than the one committed by iteration 0. *)
Theorem clean_2d_c_score_increases :
  exists s1 s2,
    state_at Diverging.body 1 0 Diverging.init = Some s1 /\
    state_at Diverging.body 2 0 Diverging.init = Some s2 /\
    score s1 = Double.dq 1 2 /\
    score s2 = Tsqrt 53 1024 (Double.dq 3 4) /\
    Tgt (score s2) (score s1) = true.
Proof.
  do 2 eexists. split; [vm_compute; reflexivity|].
  split; [vm_compute; reflexivity|].
  split_and!; vm_compute; reflexivity.
Qed.

(** ** The loops that return from both tests

    [clean_1d_r], [clean_2d_r] and [clean_1d_c] end an iteration in the same
    way: divergence returns [-i] with the step undone, convergence returns [i]
    with the step kept, anything else commits [nscore] and the new [argmax].
    What the specification says about divergence, convergence and the
    committed scores holds for every loop of that form. *)

Lemma for_loop_return {S} (body : Z -> S -> outcome S) m n k i s sk rv s' :
  state_at body k i s = Some sk -> (k < n)%nat ->
  body (i + Z.of_nat k) sk = Return rv s' ->
  for_loop body m n i s = (rv, s').
Proof.
  revert n i s. induction k as [|k IH]; intros n i s Hk Hn Hb.
  - simpl in Hk. injection Hk as ->. rewrite Z.add_0_r in Hb.
    destruct n; [lia|]. simpl. by rewrite Hb.
  - destruct n; [lia|]. simpl in *.
    destruct (body i s) as [|s1]; [discriminate|].
    apply (IH n (i + 1) s1); [done|lia|].
    by replace (i + 1 + Z.of_nat k) with (i + Z.of_nat (Datatypes.S k)) by lia.
Qed.

Section Intact.
Variables prec emax : Z.
Context {B V I : Type}.
Variable body : Z -> state B V I -> outcome (state B V I).
Variable attempt : state B V I -> trial B V I.
Variable tol : spec_float.
Variable init : state B V I.
Variables back keep next : state B V I -> state B V I.

Hypothesis body_form : forall i s,
  body i s =
  if diverged prec emax (score s) (t_nscore (attempt s)) then Return (- i) (back s)
  else if converged prec emax (score s) (t_nscore (attempt s))
            (set_first prec emax (firstscore s) (t_nscore (attempt s))) tol
       then Return i (keep s)
       else Continue (next s).
Hypothesis next_score : forall s, score (next s) = t_nscore (attempt s).

(** Divergence at iteration [k] ends the call with [-k] and the step undone;
    [nscore] and the new [argmax] are not committed, no iteration follows. *)
Lemma intact_divergence_returns maxiter k sk :
  state_at body k 0 init = Some sk -> (k < Z.to_nat maxiter)%nat ->
  diverged prec emax (score sk) (t_nscore (attempt sk)) = true ->
  for_loop body maxiter (Z.to_nat maxiter) 0 init = (- Z.of_nat k, back sk).
Proof using body_form.
  intros Hk Hlt D. apply (for_loop_return body _ _ k 0 init sk); [done..|].
  rewrite body_form, D. done.
Qed.

(** Every iteration before the one that returns was silent: the returning
    iteration is the first at which a test fires. *)
Lemma intact_earlier_silent k sk j sj :
  state_at body k 0 init = Some sk -> (j < k)%nat ->
  state_at body j 0 init = Some sj -> silent prec emax attempt tol sj.
Proof using body_form.
  intros Hk Hj Hsj.
  destruct (state_at_earlier body k (Datatypes.S j) 0 init sk Hk) as [s1 H1]; [lia|].
  apply state_at_succ in H1 as (sj' & Hsj' & E).
  rewrite Hsj in Hsj'. injection Hsj' as <-.
  rewrite body_form in E. unfold silent.
  destruct (diverged _ _ _ _); [discriminate|].
  destruct (converged _ _ _ _ _ _); [discriminate|done].
Qed.

(** After a committed positive score, the next committed score is not
    larger. *)
Lemma intact_scores_do_not_grow k sk s' :
  state_at body k 0 init = Some sk ->
  state_at body (Datatypes.S k) 0 init = Some s' ->
  Tgt (score sk) (of_int prec emax 0) = true ->
  Tgt (score s') (score sk) = false.
Proof using body_form next_score.
  intros Hk HS Hpos. apply state_at_succ in HS as (sk' & Hk' & E).
  rewrite Hk in Hk'. injection Hk' as <-.
  rewrite body_form in E.
  destruct (diverged _ _ _ _) eqn:D; [discriminate|].
  destruct (converged _ _ _ _ _ _); [discriminate|].
  injection E as <-. rewrite next_score.
  unfold diverged in D. rewrite Hpos in D. done.
Qed.
End Intact.

(** The three loops have that form. *)
Lemma iter_1d_r_form prec emax ker gain tol q dim :
  exists back keep next,
    (forall s, score (next s) = t_nscore (attempt_1d_r prec emax ker gain q dim s)) /\
    forall i s,
      iter_1d_r prec emax ker gain tol q dim i s =
      let nscore := t_nscore (attempt_1d_r prec emax ker gain q dim s) in
      if diverged prec emax (score s) nscore then Return (- i) (back s)
      else if converged prec emax (score s) nscore
                (set_first prec emax (firstscore s) nscore) tol
           then Return i (keep s)
           else Continue (next s).
Proof. do 3 eexists. split; [|intros i s; unfold iter_1d_r; reflexivity]. done. Qed.

Lemma iter_2d_r_form prec emax ker gain tol q dim1 dim2 :
  exists back keep next,
    (forall s, score (next s) = t_nscore (attempt_2d_r prec emax ker gain q dim1 dim2 s)) /\
    forall i s,
      iter_2d_r prec emax ker gain tol q dim1 dim2 i s =
      let nscore := t_nscore (attempt_2d_r prec emax ker gain q dim1 dim2 s) in
      if diverged prec emax (score s) nscore then Return (- i) (back s)
      else if converged prec emax (score s) nscore
                (set_first prec emax (firstscore s) nscore) tol
           then Return i (keep s)
           else Continue (next s).
Proof. do 3 eexists. split; [|intros i s; unfold iter_2d_r; reflexivity]. done. Qed.

Lemma iter_1d_c_form prec emax ker gain tol q dim :
  exists back keep next,
    (forall s, score (next s) = t_nscore (attempt_1d_c prec emax ker gain q dim s)) /\
    forall i s,
      iter_1d_c prec emax ker gain tol q dim i s =
      let nscore := t_nscore (attempt_1d_c prec emax ker gain q dim s) in
      if diverged prec emax (score s) nscore then Return (- i) (back s)
      else if converged prec emax (score s) nscore
                (set_first prec emax (firstscore s) nscore) tol
           then Return i (keep s)
           else Continue (next s).
Proof. do 3 eexists. split; [|intros i s; unfold iter_1d_c; reflexivity]. done. Qed.

Lemma kernel_normalization_witness :
  let kernel := [Double.c 1; (Double.d 3, Double.d (-4)); (Double.d 0, Double.d 1)] in
  let sqc := fun v : spec_float * spec_float =>
    SFadd 53 1024 (SFmul 53 1024 (fst v) (fst v)) (SFmul 53 1024 (snd v) (snd v)) in
  let p := snd (peak_1d_c 53 1024 kernel 3) in
  let q := q_1d_c 53 1024 kernel 3 in
  p = (Double.d 3, Double.d (-4)) /\
  q = (Double.dq 3 25, Double.dq 4 25) /\
  first_with sqc (elements_1d kernel 3) (fst (peak_1d_c 53 1024 kernel 3)) p /\
  none_above sqc (elements_1d kernel 3) (fst (peak_1d_c 53 1024 kernel 3)) /\
  q = (SFdiv 53 1024 (fst p) (sqc p), SFdiv 53 1024 (SFopp (snd p)) (sqc p)).
Proof.
  cbv zeta. split; [vm_compute; reflexivity|]. split; [vm_compute; reflexivity|].
  apply (proj1 (proj1 (proj2 (proj2 (kernel_normalization 53 1024)))
                  [Double.c 1; (Double.d 3, Double.d (-4)); (Double.d 0, Double.d 1)]
                  3%nat)).
  exists (Double.c 1). split; [apply list_elem_of_here | vm_compute; reflexivity].
Defined.

(** * Further properties of the code *)

(** ** The return value and the budget *)

(** What both outcomes of the body preserve holds of the state a run ends
    in. *)
Lemma for_loop_invariant {S} (body : Z -> S -> outcome S) (P : S -> Prop) :
  (forall i s s', P s -> body i s = Continue s' -> P s') ->
  (forall i s rv s', P s -> body i s = Return rv s' -> P s') ->
  forall m n i s, P s -> P (snd (for_loop body m n i s)).
Proof.
  intros HC HR m n. induction n as [|n IH]; intros i s Hs; simpl; [done|].
  destruct (body i s) as [rv s'|s'] eqn:E; simpl; eauto.
Qed.

(** A body that returns only its own index, up to sign, and never from the
    first iteration: the result is the budget or names an iteration between
    1 and the budget. *)
Lemma for_loop_range {S} (body : Z -> S -> outcome S) m s :
  0 <= m ->
  (forall i s rv s', body i s = Return rv s' -> rv = i \/ rv = - i) ->
  (forall rv s', body 0 s <> Return rv s') ->
  let rv := fst (for_loop body m (Z.to_nat m) 0 s) in
  rv = m \/ 1 <= Z.abs rv < m.
Proof.
  intros Hm Hrv H0. cbv zeta.
  destruct (for_loop_cases body m (Z.to_nat m) 0 s)
    as [(sn & _ & ->)|(k & sk & rv & s' & Hk & H1 & H2 & ->)]; simpl; [by left|].
  right. destruct k as [|k].
  - simpl in H1. injection H1 as <-. simpl in H2. by apply H0 in H2.
  - apply Hrv in H2. lia.
Qed.

(** With a budget of zero or less no iteration runs: the call returns
    [maxiter] itself, a negative number when [maxiter] is negative, and
    leaves the residual and the model as they were. *)
Theorem no_budget_no_iteration (prec emax maxiter : Z) :
  maxiter <= 0 ->
  (forall res0 ker mdl0 gain tol,
      let r := clean_1d_r prec emax res0 ker mdl0 gain maxiter tol in
      fst r = maxiter /\ res (snd r) = res0 /\ mdl (snd r) = mdl0) /\
  (forall res0 ker mdl0 gain tol,
      let r := clean_2d_r prec emax res0 ker mdl0 gain maxiter tol in
      fst r = maxiter /\ res (snd r) = res0 /\ mdl (snd r) = mdl0) /\
  (forall res0 ker mdl0 gain tol,
      let r := clean_1d_c prec emax res0 ker mdl0 gain maxiter tol in
      fst r = maxiter /\ res (snd r) = res0 /\ mdl (snd r) = mdl0) /\
  (forall res0 ker mdl0 gain tol,
      let r := clean_2d_c prec emax res0 ker mdl0 gain maxiter tol in
      fst r = maxiter /\ res (snd r) = res0 /\ mdl (snd r) = mdl0).
Proof.
  intros Hm. assert (Z.to_nat maxiter = 0%nat) as E by lia.
  split_and!; intros res0 ker mdl0 gain tol; cbv zeta;
    unfold clean_1d_r, clean_2d_r, clean_1d_c, clean_2d_c; rewrite E; done.
Qed.

Lemma no_budget_no_iteration_witness :
  let r := clean_1d_r 53 1024 [Double.d 1; Double.d 0] [Double.d 1; Double.d 1]
                      [Double.d 0; Double.d 0] (Double.d 1) (-3) Double.tol in
  -3 <= 0 /\ fst r = -3 /\ res (snd r) = [Double.d 1; Double.d 0] /\
  mdl (snd r) = [Double.d 0; Double.d 0].
Proof.
  cbv zeta. split; [lia|].
  apply (proj1 (no_budget_no_iteration 53 1024 (-3) ltac:(lia))).
Defined.

(** With a budget [maxiter >= 0], the value a call returns is [maxiter], or
    it is [i] or [-i] for an iteration [1 <= i < maxiter]. *)
Theorem return_value_range (prec emax maxiter : Z) :
  0 <= maxiter ->
  (forall res ker mdl gain tol,
      let rv := fst (clean_1d_r prec emax res ker mdl gain maxiter tol) in
      rv = maxiter \/ 1 <= Z.abs rv < maxiter) /\
  (forall res ker mdl gain tol,
      let rv := fst (clean_2d_r prec emax res ker mdl gain maxiter tol) in
      rv = maxiter \/ 1 <= Z.abs rv < maxiter) /\
  (forall res ker mdl gain tol,
      let rv := fst (clean_1d_c prec emax res ker mdl gain maxiter tol) in
      rv = maxiter \/ 1 <= Z.abs rv < maxiter) /\
  (forall res ker mdl gain tol,
      let rv := fst (clean_2d_c prec emax res ker mdl gain maxiter tol) in
      rv = maxiter \/ 1 <= Z.abs rv < maxiter).
Proof.
  intros Hm. split_and!; intros res0 ker mdl0 gain tol.
  - apply for_loop_range; [done|..].
    + intros i s rv s' H. by apply iter_1d_r_Return in H as [_ ?].
    + intros rv s' H. apply iter_1d_r_Return in H as [H _].
      cbn [score init_1d init_2d] in H. by rewrite sentinel_not_pos in H.
  - apply for_loop_range; [done|..].
    + intros i s rv s' H. by apply iter_2d_r_Return in H as [_ ?].
    + intros rv s' H. apply iter_2d_r_Return in H as [H _].
      cbn [score init_1d init_2d] in H. by rewrite sentinel_not_pos in H.
  - apply for_loop_range; [done|..].
    + intros i s rv s' H. by apply iter_1d_c_Return in H as [_ ?].
    + intros rv s' H. apply iter_1d_c_Return in H as [H _].
      cbn [score init_1d init_2d] in H. by rewrite sentinel_not_pos in H.
  - apply for_loop_range; [done|..].
    + intros i s rv s' H. apply iter_2d_c_Return in H as [_ ?]. by left.
    + intros rv s' H. apply iter_2d_c_Return in H as [H _].
      cbn [score init_1d init_2d] in H. by rewrite sentinel_not_pos in H.
Qed.

Lemma return_value_range_witness :
  let rv := fst (clean_2d_r 53 1024 [[Double.d 1; Double.d 0; Double.d 0; Double.d 0]]
                   [[Double.d 1; Double.d 1; Double.d (-1); Double.d (-1)]]
                   [[Double.d 0; Double.d 0; Double.d 0; Double.d 0]]
                   (Double.d 1) 5 Double.tol) in
  0 <= 5 /\ (rv = 5 \/ 1 <= Z.abs rv < 5).
Proof.
  cbv zeta. split; [lia|].
  apply (proj1 (proj2 (return_value_range 53 1024 5 ltac:(lia)))).
Defined.

(** ** Shapes and indices *)

Lemma upd2_rectangular {A} (f : A -> A) i j d1 d2 (a : list (list A)) :
  rectangular d1 d2 a -> rectangular d1 d2 (upd2 f i j a).
Proof.
  intros [H1 H2]. unfold upd2. split; [by rewrite length_alter|].
  apply Forall_alter; [done|]. intros row _ <-. apply length_alter.
Qed.

Lemma iter_1d_r_shape prec emax ker gain tol q dim n m i s :
  shape_1d n m s ->
  match iter_1d_r prec emax ker gain tol q dim i s with
  | Return _ s' | Continue s' => shape_1d n m s'
  end.
Proof.
  intros [Hr Hm]. unfold iter_1d_r, shape_1d.
  destruct (diverged _ _ _ _); [|destruct (converged _ _ _ _ _ _)]; simpl;
    rewrite ?undo_1d_r_sweep, scan_1d_r_res, ?sweep_length;
    unfold upd1; rewrite ?length_alter; done.
Qed.

Lemma iter_1d_c_shape prec emax ker gain tol q dim n m i s :
  shape_1d n m s ->
  match iter_1d_c prec emax ker gain tol q dim i s with
  | Return _ s' | Continue s' => shape_1d n m s'
  end.
Proof.
  intros [Hr Hm]. unfold iter_1d_c, shape_1d.
  destruct (diverged _ _ _ _); [|destruct (converged _ _ _ _ _ _)]; simpl;
    rewrite ?undo_1d_c_sweep, scan_1d_c_res, ?sweep_length;
    unfold upd1; rewrite ?length_alter; done.
Qed.

Lemma iter_2d_r_shape prec emax ker gain tol q dim1 dim2 d1 d2 m1 m2 i s :
  shape_2d d1 d2 m1 m2 s ->
  match iter_2d_r prec emax ker gain tol q dim1 dim2 i s with
  | Return _ s' | Continue s' => shape_2d d1 d2 m1 m2 s'
  end.
Proof.
  intros [Hr Hm]. unfold iter_2d_r, shape_2d.
  destruct (diverged _ _ _ _); [|destruct (converged _ _ _ _ _ _)]; simpl;
    rewrite ?undo_2d_r_sweep, scan_2d_r_res;
    split; repeat first [apply sweep2_rectangular | apply upd2_rectangular]; done.
Qed.

Lemma iter_2d_c_shape prec emax ker gain tol q dim1 dim2 d1 d2 m1 m2 i s :
  shape_2d d1 d2 m1 m2 s ->
  match iter_2d_c prec emax ker gain tol q dim1 dim2 i s with
  | Return _ s' | Continue s' => shape_2d d1 d2 m1 m2 s'
  end.
Proof.
  intros [Hr Hm]. unfold iter_2d_c, shape_2d.
  destruct (diverged _ _ _ _); [|destruct (converged _ _ _ _ _ _)]; simpl;
    rewrite ?undo_2d_c_sweep, scan_2d_c_res;
    split; repeat first [apply sweep2_rectangular | apply upd2_rectangular]; done.
Qed.

(** Whatever way a call ends (budget, divergence, convergence), the residual
    and the model it leaves have the shapes of the ones it was given: the
    lengths for 1-D buffers, the numbers of rows and of columns for
    rectangular 2-D buffers. *)
Theorem buffers_keep_shape (prec emax : Z) :
  (forall res0 ker mdl0 gain maxiter tol,
      shape_1d (length res0) (length mdl0)
               (snd (clean_1d_r prec emax res0 ker mdl0 gain maxiter tol))) /\
  (forall res0 ker mdl0 gain maxiter tol d1 d2 m1 m2,
      rectangular d1 d2 res0 -> rectangular m1 m2 mdl0 ->
      shape_2d d1 d2 m1 m2
               (snd (clean_2d_r prec emax res0 ker mdl0 gain maxiter tol))) /\
  (forall res0 ker mdl0 gain maxiter tol,
      shape_1d (length res0) (length mdl0)
               (snd (clean_1d_c prec emax res0 ker mdl0 gain maxiter tol))) /\
  (forall res0 ker mdl0 gain maxiter tol d1 d2 m1 m2,
      rectangular d1 d2 res0 -> rectangular m1 m2 mdl0 ->
      shape_2d d1 d2 m1 m2
               (snd (clean_2d_c prec emax res0 ker mdl0 gain maxiter tol))).
Proof.
  split_and!.
  - intros res0 ker mdl0 gain maxiter tol.
    apply (for_loop_invariant _ (shape_1d (length res0) (length mdl0))); [| |done].
    + intros i s s' Hs E.
      pose proof (iter_1d_r_shape prec emax ker gain tol
                    (q_1d_r prec emax ker (DIM0 res0)) (DIM0 res0) _ _ i s Hs) as H.
      by rewrite E in H.
    + intros i s rv s' Hs E.
      pose proof (iter_1d_r_shape prec emax ker gain tol
                    (q_1d_r prec emax ker (DIM0 res0)) (DIM0 res0) _ _ i s Hs) as H.
      by rewrite E in H.
  - intros res0 ker mdl0 gain maxiter tol d1 d2 m1 m2 Hr Hm.
    apply (for_loop_invariant _ (shape_2d d1 d2 m1 m2)); [| |done].
    + intros i s s' Hs E.
      pose proof (iter_2d_r_shape prec emax ker gain tol
                    (q_2d_r prec emax ker (DIM0 res0) (DIM1 res0))
                    (DIM0 res0) (DIM1 res0) _ _ _ _ i s Hs) as H.
      by rewrite E in H.
    + intros i s rv s' Hs E.
      pose proof (iter_2d_r_shape prec emax ker gain tol
                    (q_2d_r prec emax ker (DIM0 res0) (DIM1 res0))
                    (DIM0 res0) (DIM1 res0) _ _ _ _ i s Hs) as H.
      by rewrite E in H.
  - intros res0 ker mdl0 gain maxiter tol.
    apply (for_loop_invariant _ (shape_1d (length res0) (length mdl0))); [| |done].
    + intros i s s' Hs E.
      pose proof (iter_1d_c_shape prec emax ker gain tol
                    (q_1d_c prec emax ker (DIM0 res0)) (DIM0 res0) _ _ i s Hs) as H.
      by rewrite E in H.
    + intros i s rv s' Hs E.
      pose proof (iter_1d_c_shape prec emax ker gain tol
                    (q_1d_c prec emax ker (DIM0 res0)) (DIM0 res0) _ _ i s Hs) as H.
      by rewrite E in H.
  - intros res0 ker mdl0 gain maxiter tol d1 d2 m1 m2 Hr Hm.
    apply (for_loop_invariant _ (shape_2d d1 d2 m1 m2)); [| |done].
    + intros i s s' Hs E.
      pose proof (iter_2d_c_shape prec emax ker gain tol
                    (q_2d_c prec emax ker (DIM0 res0) (DIM1 res0))
                    (DIM0 res0) (DIM1 res0) _ _ _ _ i s Hs) as H.
      by rewrite E in H.
    + intros i s rv s' Hs E.
      pose proof (iter_2d_c_shape prec emax ker gain tol
                    (q_2d_c prec emax ker (DIM0 res0) (DIM1 res0))
                    (DIM0 res0) (DIM1 res0) _ _ _ _ i s Hs) as H.
      by rewrite E in H.
Qed.

Lemma buffers_keep_shape_witness :
  shape_2d 1 4 1 4 (snd Diverging.run).
Proof.
  apply (proj2 (proj2 (proj2 (buffers_keep_shape 53 1024)))
           Diverging.residual Diverging.kernel Diverging.model Diverging.gain
           Diverging.maxiter Double.tol 1%nat 4%nat 1%nat 4%nat);
    (split; [reflexivity | repeat constructor]).
Defined.

Lemma state_at_shape_1d_r prec emax ker gain tol q dim res0 mdl0 max0 k sk :
  state_at (iter_1d_r prec emax ker gain tol q dim) k 0
           (init_1d prec emax res0 mdl0 max0) = Some sk ->
  shape_1d (length res0) (length mdl0) sk.
Proof.
  intros Hk.
  refine (state_at_invariant _ (shape_1d _ _) _ _ _ _ _ _ Hk); [|done].
  intros i s s' Hs E.
  pose proof (iter_1d_r_shape prec emax ker gain tol q dim _ _ i s Hs) as H.
  by rewrite E in H.
Qed.

Lemma state_at_shape_1d_c prec emax ker gain tol q dim res0 mdl0 max0 k sk :
  state_at (iter_1d_c prec emax ker gain tol q dim) k 0
           (init_1d prec emax res0 mdl0 max0) = Some sk ->
  shape_1d (length res0) (length mdl0) sk.
Proof.
  intros Hk.
  refine (state_at_invariant _ (shape_1d _ _) _ _ _ _ _ _ Hk); [|done].
  intros i s s' Hs E.
  pose proof (iter_1d_c_shape prec emax ker gain tol q dim _ _ i s Hs) as H.
  by rewrite E in H.
Qed.

Lemma state_at_shape_2d_r prec emax ker gain tol q dim1 dim2 d1 d2 m1 m2
    res0 mdl0 max0 k sk :
  rectangular d1 d2 res0 -> rectangular m1 m2 mdl0 ->
  state_at (iter_2d_r prec emax ker gain tol q dim1 dim2) k 0
           (init_2d prec emax res0 mdl0 max0) = Some sk ->
  shape_2d d1 d2 m1 m2 sk.
Proof.
  intros Hr Hm Hk.
  refine (state_at_invariant _ (shape_2d d1 d2 m1 m2) _ _ _ _ _ _ Hk); [|done].
  intros i s s' Hs E.
  pose proof (iter_2d_r_shape prec emax ker gain tol q dim1 dim2 _ _ _ _ i s Hs) as H.
  by rewrite E in H.
Qed.

Lemma state_at_shape_2d_c prec emax ker gain tol q dim1 dim2 d1 d2 m1 m2
    res0 mdl0 max0 k sk :
  rectangular d1 d2 res0 -> rectangular m1 m2 mdl0 ->
  state_at (iter_2d_c prec emax ker gain tol q dim1 dim2) k 0
           (init_2d prec emax res0 mdl0 max0) = Some sk ->
  shape_2d d1 d2 m1 m2 sk.
Proof.
  intros Hr Hm Hk.
  refine (state_at_invariant _ (shape_2d d1 d2 m1 m2) _ _ _ _ _ _ Hk); [|done].
  intros i s s' Hs E.
  pose proof (iter_2d_c_shape prec emax ker gain tol q dim1 dim2 _ _ _ _ i s Hs) as H.
  by rewrite E in H.
Qed.

Lemma wrap_n_range dim a n :
  Z.of_nat dim <= 2 ^ 30 -> (n < dim)%nat -> (a < dim)%nat ->
  0 <= wrap_n (Z.of_nat dim) (Z.of_nat a) (Z.of_nat n) < Z.of_nat dim.
Proof.
  intros Hd Hn Ha. rewrite wrap_n_wrap by done.
  pose proof (wrap_lt dim a n ltac:(lia)). lia.
Qed.

(** On buffers that are not empty, with axes of at most 2^30 elements and a
    model of the shape of the residual: in every iteration of every call the
    peak index [argmax], at which the iteration adds its step to the model,
    lies inside the residual and the model; and every index [wrap_n] the
    scoring loop computes from it, in the [int] arithmetic of the code, lies
    inside too, so the peak index of the next iteration does. *)
Theorem argmax_stays_inside (prec emax : Z) :
  (forall res0 ker mdl0 gain tol k sk,
      let dim := DIM0 res0 in
      (0 < dim)%nat -> Z.of_nat dim <= 2 ^ 30 -> length mdl0 = dim ->
      state_at (iter_1d_r prec emax ker gain tol (q_1d_r prec emax ker dim) dim) k 0
               (init_1d prec emax res0 mdl0 (of_int prec emax 0)) = Some sk ->
      (argmax sk < length (res sk))%nat /\ (argmax sk < length (mdl sk))%nat /\
      forall n, (n < dim)%nat ->
        0 <= wrap_n (Z.of_nat dim) (Z.of_nat (argmax sk)) (Z.of_nat n)
          < Z.of_nat dim) /\
  (forall res0 ker mdl0 gain tol k sk,
      let dim1 := DIM0 res0 in
      let dim2 := DIM1 res0 in
      (0 < dim1)%nat -> (0 < dim2)%nat ->
      Z.of_nat dim1 <= 2 ^ 30 -> Z.of_nat dim2 <= 2 ^ 30 ->
      rectangular dim1 dim2 res0 -> rectangular dim1 dim2 mdl0 ->
      state_at (iter_2d_r prec emax ker gain tol (q_2d_r prec emax ker dim1 dim2)
                          dim1 dim2) k 0
               (init_2d prec emax res0 mdl0 (of_int prec emax 0)) = Some sk ->
      ((fst (argmax sk) < dim1)%nat /\ (snd (argmax sk) < dim2)%nat) /\
      (rectangular dim1 dim2 (res sk) /\ rectangular dim1 dim2 (mdl sk)) /\
      forall n1 n2, (n1 < dim1)%nat -> (n2 < dim2)%nat ->
        0 <= wrap_n (Z.of_nat dim1) (Z.of_nat (fst (argmax sk))) (Z.of_nat n1)
          < Z.of_nat dim1 /\
        0 <= wrap_n (Z.of_nat dim2) (Z.of_nat (snd (argmax sk))) (Z.of_nat n2)
          < Z.of_nat dim2) /\
  (forall res0 ker mdl0 gain tol k sk,
      let dim := DIM0 res0 in
      (0 < dim)%nat -> Z.of_nat dim <= 2 ^ 30 -> length mdl0 = dim ->
      state_at (iter_1d_c prec emax ker gain tol (q_1d_c prec emax ker dim) dim) k 0
               (init_1d prec emax res0 mdl0 (of_int prec emax 0, of_int prec emax 0))
        = Some sk ->
      (argmax sk < length (res sk))%nat /\ (argmax sk < length (mdl sk))%nat /\
      forall n, (n < dim)%nat ->
        0 <= wrap_n (Z.of_nat dim) (Z.of_nat (argmax sk)) (Z.of_nat n)
          < Z.of_nat dim) /\
  (forall res0 ker mdl0 gain tol k sk,
      let dim1 := DIM0 res0 in
      let dim2 := DIM1 res0 in
      (0 < dim1)%nat -> (0 < dim2)%nat ->
      Z.of_nat dim1 <= 2 ^ 30 -> Z.of_nat dim2 <= 2 ^ 30 ->
      rectangular dim1 dim2 res0 -> rectangular dim1 dim2 mdl0 ->
      state_at (iter_2d_c prec emax ker gain tol (q_2d_c prec emax ker dim1 dim2)
                          dim1 dim2) k 0
               (init_2d prec emax res0 mdl0 (of_int prec emax 0, of_int prec emax 0))
        = Some sk ->
      ((fst (argmax sk) < dim1)%nat /\ (snd (argmax sk) < dim2)%nat) /\
      (rectangular dim1 dim2 (res sk) /\ rectangular dim1 dim2 (mdl sk)) /\
      forall n1 n2, (n1 < dim1)%nat -> (n2 < dim2)%nat ->
        0 <= wrap_n (Z.of_nat dim1) (Z.of_nat (fst (argmax sk))) (Z.of_nat n1)
          < Z.of_nat dim1 /\
        0 <= wrap_n (Z.of_nat dim2) (Z.of_nat (snd (argmax sk))) (Z.of_nat n2)
          < Z.of_nat dim2).
Proof.
  split_and!; intros res0 ker mdl0 gain tol k sk; cbv zeta.
  - intros H0 Hd Hm Hk.
    destruct (state_at_peak_inside_1d_r _ _ _ _ _ _ _ _ _ _ _ _ H0 Hk) as [Ha _].
    destruct (state_at_shape_1d_r _ _ _ _ _ _ _ _ _ _ _ _ Hk) as [Lr Lm].
    unfold DIM0 in *. split_and!; [lia..|].
    intros n Hn. by apply wrap_n_range.
  - intros H1 H2 Hd1 Hd2 Hr Hm Hk.
    destruct (state_at_peak_inside_2d_r _ _ _ _ _ _ _ _ _ _ _ _ _ H1 H2 Hk)
      as [[Ha1 Ha2] _].
    destruct (state_at_shape_2d_r _ _ _ _ _ _ _ _ _ _ _ _ _ _ _ _ _ Hr Hm Hk)
      as [Hrs Hms].
    split_and!; [done..|].
    intros n1 n2 Hn1 Hn2. split; by apply wrap_n_range.
  - intros H0 Hd Hm Hk.
    destruct (state_at_peak_inside_1d_c _ _ _ _ _ _ _ _ _ _ _ _ H0 Hk) as [Ha _].
    destruct (state_at_shape_1d_c _ _ _ _ _ _ _ _ _ _ _ _ Hk) as [Lr Lm].
    unfold DIM0 in *. split_and!; [lia..|].
    intros n Hn. by apply wrap_n_range.
  - intros H1 H2 Hd1 Hd2 Hr Hm Hk.
    destruct (state_at_peak_inside_2d_c _ _ _ _ _ _ _ _ _ _ _ _ _ H1 H2 Hk)
      as [[Ha1 Ha2] _].
    destruct (state_at_shape_2d_c _ _ _ _ _ _ _ _ _ _ _ _ _ _ _ _ _ Hr Hm Hk)
      as [Hrs Hms].
    split_and!; [done..|].
    intros n1 n2 Hn1 Hn2. split; by apply wrap_n_range.
Qed.

Lemma argmax_stays_inside_witness :
  exists sk,
    state_at Diverging.body 2 0 Diverging.init = Some sk /\
    forall n1 n2, (n1 < 1)%nat -> (n2 < 4)%nat ->
      0 <= wrap_n 1 (Z.of_nat (fst (argmax sk))) (Z.of_nat n1) < 1 /\
      0 <= wrap_n 4 (Z.of_nat (snd (argmax sk))) (Z.of_nat n2) < 4.
Proof.
  eexists. split; [vm_compute; reflexivity|].
  refine (proj2 (proj2
            (proj2 (proj2 (proj2 (argmax_stays_inside 53 1024)))
               Diverging.residual Diverging.kernel Diverging.model Diverging.gain
               Double.tol 2%nat _ _ _ _ _ _ _ _))).
  - vm_compute. lia.
  - vm_compute. lia.
  - vm_compute. discriminate.
  - vm_compute. discriminate.
  - split; [reflexivity | repeat constructor].
  - split; [reflexivity | repeat constructor].
  - vm_compute. reflexivity.
Defined.

(** ** Leaving the loop from a test *)






(** In all four loops, when at an iteration [k] within the budget the
    divergence test does not fire and the convergence test does, the call
    returns [k] and leaves the residual and the model that iteration
    computed: the step is kept. *)
Theorem convergence_keeps_step (prec emax : Z) :
  (forall res0 ker mdl0 gain maxiter tol k sk,
      let dim := DIM0 res0 in
      let q := q_1d_r prec emax ker dim in
      let attempt := attempt_1d_r prec emax ker gain q dim in
      state_at (iter_1d_r prec emax ker gain tol q dim) k 0
               (init_1d prec emax res0 mdl0 (of_int prec emax 0)) = Some sk ->
      (k < Z.to_nat maxiter)%nat ->
      diverged prec emax (score sk) (t_nscore (attempt sk)) = false ->
      converged prec emax (score sk) (t_nscore (attempt sk))
                (set_first prec emax (firstscore sk) (t_nscore (attempt sk))) tol
        = true ->
      accepted attempt k sk (clean_1d_r prec emax res0 ker mdl0 gain maxiter tol)) /\
  (forall res0 ker mdl0 gain maxiter tol k sk,
      let dim1 := DIM0 res0 in
      let dim2 := DIM1 res0 in
      let q := q_2d_r prec emax ker dim1 dim2 in
      let attempt := attempt_2d_r prec emax ker gain q dim1 dim2 in
      state_at (iter_2d_r prec emax ker gain tol q dim1 dim2) k 0
               (init_2d prec emax res0 mdl0 (of_int prec emax 0)) = Some sk ->
      (k < Z.to_nat maxiter)%nat ->
      diverged prec emax (score sk) (t_nscore (attempt sk)) = false ->
      converged prec emax (score sk) (t_nscore (attempt sk))
                (set_first prec emax (firstscore sk) (t_nscore (attempt sk))) tol
        = true ->
      accepted attempt k sk (clean_2d_r prec emax res0 ker mdl0 gain maxiter tol)) /\
  (forall res0 ker mdl0 gain maxiter tol k sk,
      let dim := DIM0 res0 in
      let q := q_1d_c prec emax ker dim in
      let attempt := attempt_1d_c prec emax ker gain q dim in
      state_at (iter_1d_c prec emax ker gain tol q dim) k 0
               (init_1d prec emax res0 mdl0 (of_int prec emax 0, of_int prec emax 0))
        = Some sk ->
      (k < Z.to_nat maxiter)%nat ->
      diverged prec emax (score sk) (t_nscore (attempt sk)) = false ->
      converged prec emax (score sk) (t_nscore (attempt sk))
                (set_first prec emax (firstscore sk) (t_nscore (attempt sk))) tol
        = true ->
      accepted attempt k sk (clean_1d_c prec emax res0 ker mdl0 gain maxiter tol)) /\
  (forall res0 ker mdl0 gain maxiter tol k sk,
      let dim1 := DIM0 res0 in
      let dim2 := DIM1 res0 in
      let q := q_2d_c prec emax ker dim1 dim2 in
      let attempt := attempt_2d_c prec emax ker gain q dim1 dim2 in
      state_at (iter_2d_c prec emax ker gain tol q dim1 dim2) k 0
               (init_2d prec emax res0 mdl0 (of_int prec emax 0, of_int prec emax 0))
        = Some sk ->
      (k < Z.to_nat maxiter)%nat ->
      diverged prec emax (score sk) (t_nscore (attempt sk)) = false ->
      converged prec emax (score sk) (t_nscore (attempt sk))
                (set_first prec emax (firstscore sk) (t_nscore (attempt sk))) tol
        = true ->
      accepted attempt k sk (clean_2d_c prec emax res0 ker mdl0 gain maxiter tol)).
Proof.
  split_and!; intros res0 ker mdl0 gain maxiter tol k sk; cbv zeta;
    intros Hk Hlt D Cv.
  - unfold clean_1d_r. erewrite (for_loop_return _ _ _ k 0 _ sk); [|done|done|].
    2:{ unfold iter_1d_r. rewrite D, Cv. reflexivity. }
    done.
  - unfold clean_2d_r. erewrite (for_loop_return _ _ _ k 0 _ sk); [|done|done|].
    2:{ unfold iter_2d_r. rewrite D, Cv. reflexivity. }
    done.
  - unfold clean_1d_c. erewrite (for_loop_return _ _ _ k 0 _ sk); [|done|done|].
    2:{ unfold iter_1d_c. rewrite D, Cv. reflexivity. }
    done.
  - unfold clean_2d_c. erewrite (for_loop_return _ _ _ k 0 _ sk); [|done|done|].
    2:{ unfold iter_2d_c. rewrite D, Cv. reflexivity. }
    done.
Qed.

Lemma convergence_keeps_step_witness :
  let f := of_int 24 128 in
  let residual := [f 0; f 0; f 5; f 0] in
  let kernel := [f 1; f 0; f 0; f 0] in
  let model := [f 0; f 0; f 0; f 0] in
  let gain := Double.dq 1 2 in
  let tol := Double.dq 3 4 in
  let q := q_1d_r 24 128 kernel 4 in
  exists sk,
    state_at (iter_1d_r 24 128 kernel gain tol q 4) 1 0
             (init_1d 24 128 residual model (f 0)) = Some sk /\
    accepted (attempt_1d_r 24 128 kernel gain q 4) 1 sk
             (clean_1d_r 24 128 residual kernel model gain 10 tol).
Proof.
  cbv zeta. eexists. split; [vm_compute; reflexivity|].
  apply (proj1 (convergence_keeps_step 24 128)
           [of_int 24 128 0; of_int 24 128 0; of_int 24 128 5; of_int 24 128 0]
           [of_int 24 128 1; of_int 24 128 0; of_int 24 128 0; of_int 24 128 0]
           [of_int 24 128 0; of_int 24 128 0; of_int 24 128 0; of_int 24 128 0]
           (Double.dq 1 2) 10 (Double.dq 3 4) 1%nat);
    [vm_compute; reflexivity | vm_compute; lia | vm_compute; reflexivity
    | vm_compute; reflexivity].
Defined.

(** In [clean_1d_r], [clean_2d_r] and [clean_1d_c] an iteration is followed
    by another one only if neither test fired in it: when a call leaves the
    loop from a test at iteration [k], no test had fired before [k]. *)
Theorem earlier_iterations_silent (prec emax : Z) :
  (forall res0 ker mdl0 gain tol k sk j sj,
      let dim := DIM0 res0 in
      let q := q_1d_r prec emax ker dim in
      let body := iter_1d_r prec emax ker gain tol q dim in
      let init := init_1d prec emax res0 mdl0 (of_int prec emax 0) in
      state_at body k 0 init = Some sk -> (j < k)%nat ->
      state_at body j 0 init = Some sj ->
      silent prec emax (attempt_1d_r prec emax ker gain q dim) tol sj) /\
  (forall res0 ker mdl0 gain tol k sk j sj,
      let dim1 := DIM0 res0 in
      let dim2 := DIM1 res0 in
      let q := q_2d_r prec emax ker dim1 dim2 in
      let body := iter_2d_r prec emax ker gain tol q dim1 dim2 in
      let init := init_2d prec emax res0 mdl0 (of_int prec emax 0) in
      state_at body k 0 init = Some sk -> (j < k)%nat ->
      state_at body j 0 init = Some sj ->
      silent prec emax (attempt_2d_r prec emax ker gain q dim1 dim2) tol sj) /\
  (forall res0 ker mdl0 gain tol k sk j sj,
      let dim := DIM0 res0 in
      let q := q_1d_c prec emax ker dim in
      let body := iter_1d_c prec emax ker gain tol q dim in
      let init := init_1d prec emax res0 mdl0 (of_int prec emax 0, of_int prec emax 0) in
      state_at body k 0 init = Some sk -> (j < k)%nat ->
      state_at body j 0 init = Some sj ->
      silent prec emax (attempt_1d_c prec emax ker gain q dim) tol sj).
Proof.
  split_and!; intros res0 ker mdl0 gain tol k sk j sj; cbv zeta; intros Hk Hj Hsj.
  - destruct (iter_1d_r_form prec emax ker gain tol
                (q_1d_r prec emax ker (DIM0 res0)) (DIM0 res0))
      as (back & keep & next & _ & Hform).
    eapply (intact_earlier_silent prec emax _ _ tol _ back keep next Hform k sk j sj);
      done.
  - destruct (iter_2d_r_form prec emax ker gain tol
                (q_2d_r prec emax ker (DIM0 res0) (DIM1 res0)) (DIM0 res0) (DIM1 res0))
      as (back & keep & next & _ & Hform).
    eapply (intact_earlier_silent prec emax _ _ tol _ back keep next Hform k sk j sj);
      done.
  - destruct (iter_1d_c_form prec emax ker gain tol
                (q_1d_c prec emax ker (DIM0 res0)) (DIM0 res0))
      as (back & keep & next & _ & Hform).
    eapply (intact_earlier_silent prec emax _ _ tol _ back keep next Hform k sk j sj);
      done.
Qed.

Lemma earlier_iterations_silent_witness :
  let l := of_int 64 16384 in
  let residual := [l 1; l 0; l 0; l 0] in
  let kernel := [l 1; l 0; l 0; l 0] in
  let model := [l 0; l 0; l 0; l 0] in
  let gain := Double.dq 1 2 in
  let tol := Double.dq 3 8 in
  let q := q_1d_r 64 16384 kernel 4 in
  fst (clean_1d_r 64 16384 residual kernel model gain 10 tol) = 2 /\
  exists sj,
    state_at (iter_1d_r 64 16384 kernel gain tol q 4) 1 0
             (init_1d 64 16384 residual model (l 0)) = Some sj /\
    silent 64 16384 (attempt_1d_r 64 16384 kernel gain q 4) tol sj.
Proof.
  cbv zeta. split; [vm_compute; reflexivity|].
  eexists. split; [vm_compute; reflexivity|].
  eapply (proj1 (earlier_iterations_silent 64 16384)
            [of_int 64 16384 1; of_int 64 16384 0; of_int 64 16384 0; of_int 64 16384 0]
            [of_int 64 16384 1; of_int 64 16384 0; of_int 64 16384 0; of_int 64 16384 0]
            [of_int 64 16384 0; of_int 64 16384 0; of_int 64 16384 0; of_int 64 16384 0]
            (Double.dq 1 2) (Double.dq 3 8) 2%nat _ 1%nat);
    [vm_compute; reflexivity | lia | vm_compute; reflexivity].
Defined.

(** In [clean_1d_r], [clean_2d_r] and [clean_1d_c] the committed scores do
    not grow: the score an iteration commits is never larger than the positive
    score committed before it. *)
Theorem committed_scores_do_not_grow (prec emax : Z) :
  (forall res0 ker mdl0 gain tol k sk s',
      let dim := DIM0 res0 in
      let q := q_1d_r prec emax ker dim in
      let body := iter_1d_r prec emax ker gain tol q dim in
      let init := init_1d prec emax res0 mdl0 (of_int prec emax 0) in
      state_at body k 0 init = Some sk ->
      state_at body (Datatypes.S k) 0 init = Some s' ->
      Tgt (score sk) (of_int prec emax 0) = true ->
      Tgt (score s') (score sk) = false) /\
  (forall res0 ker mdl0 gain tol k sk s',
      let dim1 := DIM0 res0 in
      let dim2 := DIM1 res0 in
      let q := q_2d_r prec emax ker dim1 dim2 in
      let body := iter_2d_r prec emax ker gain tol q dim1 dim2 in
      let init := init_2d prec emax res0 mdl0 (of_int prec emax 0) in
      state_at body k 0 init = Some sk ->
      state_at body (Datatypes.S k) 0 init = Some s' ->
      Tgt (score sk) (of_int prec emax 0) = true ->
      Tgt (score s') (score sk) = false) /\
  (forall res0 ker mdl0 gain tol k sk s',
      let dim := DIM0 res0 in
      let q := q_1d_c prec emax ker dim in
      let body := iter_1d_c prec emax ker gain tol q dim in
      let init := init_1d prec emax res0 mdl0 (of_int prec emax 0, of_int prec emax 0) in
      state_at body k 0 init = Some sk ->
      state_at body (Datatypes.S k) 0 init = Some s' ->
      Tgt (score sk) (of_int prec emax 0) = true ->
      Tgt (score s') (score sk) = false).
Proof.
  split_and!; intros res0 ker mdl0 gain tol k sk s'; cbv zeta; intros Hk HS Hpos.
  - destruct (iter_1d_r_form prec emax ker gain tol
                (q_1d_r prec emax ker (DIM0 res0)) (DIM0 res0))
      as (back & keep & next & Hn & Hform).
    eapply (intact_scores_do_not_grow prec emax _ _ tol _ back keep next Hform Hn k);
      done.
  - destruct (iter_2d_r_form prec emax ker gain tol
                (q_2d_r prec emax ker (DIM0 res0) (DIM1 res0)) (DIM0 res0) (DIM1 res0))
      as (back & keep & next & Hn & Hform).
    eapply (intact_scores_do_not_grow prec emax _ _ tol _ back keep next Hform Hn k);
      done.
  - destruct (iter_1d_c_form prec emax ker gain tol
                (q_1d_c prec emax ker (DIM0 res0)) (DIM0 res0))
      as (back & keep & next & Hn & Hform).
    eapply (intact_scores_do_not_grow prec emax _ _ tol _ back keep next Hform Hn k);
      done.
Qed.

Lemma committed_scores_do_not_grow_witness :
  let residual := [Double.d 0; Double.d 0; Double.d 5; Double.d 0] in
  let kernel := [Double.d 1; Double.d 0; Double.d 0; Double.d 0] in
  let model := [Double.d 0; Double.d 0; Double.d 0; Double.d 0] in
  let gain := Double.dq 1 2 in
  let q := q_1d_r 53 1024 kernel 4 in
  exists sk s',
    state_at (iter_1d_r 53 1024 kernel gain Double.tol q 4) 1 0
             (init_1d 53 1024 residual model (Double.d 0)) = Some sk /\
    state_at (iter_1d_r 53 1024 kernel gain Double.tol q 4) 2 0
             (init_1d 53 1024 residual model (Double.d 0)) = Some s' /\
    Tgt (score s') (score sk) = false.
Proof.
  cbv zeta. do 2 eexists. split; [vm_compute; reflexivity|].
  split; [vm_compute; reflexivity|].
  eapply (proj1 (committed_scores_do_not_grow 53 1024)
            [Double.d 0; Double.d 0; Double.d 5; Double.d 0]
            [Double.d 1; Double.d 0; Double.d 0; Double.d 0]
            [Double.d 0; Double.d 0; Double.d 0; Double.d 0]
            (Double.dq 1 2) Double.tol 1%nat);
    vm_compute; reflexivity.
Defined.

(** ** The reference score *)

(** A square root is never negative: it is never [< 0]. *)
Lemma Tsqrt_not_neg prec emax x :
  Tlt (Tsqrt prec emax x) (of_int prec emax 0) = false.
Proof.
  rewrite of_int_0. unfold Tlt, Tsqrt.
  destruct x as [[]|[]| |[] m e]; try reflexivity.
  simpl. destruct (SFsqrt_core_binary _ _ _ _) as [[mz ez] lz].
  pose proof (binary_round_aux_sign prec emax false mz ez lz) as Hs.
  destruct (binary_round_aux prec emax false mz ez lz) as [s|s| |s m' e'];
    try reflexivity; injection (Hs ltac:(discriminate)) as ->; reflexivity.
Qed.

Section FirstScore.
Variables prec emax : Z.
Context {B V I : Type}.
Variable body : Z -> state B V I -> outcome (state B V I).
Variable attempt : state B V I -> trial B V I.
Variable init : state B V I.

Hypothesis sentinel_neg : Tlt (of_int prec emax (-1)) (of_int prec emax 0) = true.
Hypothesis init_first : firstscore init = of_int prec emax (-1).
Hypothesis body_first : forall i s s',
  body i s = Continue s' ->
  firstscore s' = set_first prec emax (firstscore s) (t_nscore (attempt s)).
Hypothesis nscore_not_neg : forall s,
  Tlt (t_nscore (attempt s)) (of_int prec emax 0) = false.

Lemma firstscore_fixed k sk :
  state_at body (Datatypes.S k) 0 init = Some sk ->
  firstscore sk = t_nscore (attempt init).
Proof using sentinel_neg init_first body_first nscore_not_neg.
  revert sk. induction k as [|k IH]; intros sk Hk.
  - simpl in Hk. destruct (body 0 init) as [|s1] eqn:E; [discriminate|].
    injection Hk as <-. rewrite (body_first _ _ _ E), init_first.
    unfold set_first. by rewrite sentinel_neg.
  - apply state_at_succ in Hk as (s1 & H1 & E).
    rewrite (body_first _ _ _ E), (IH s1 H1).
    unfold set_first. by rewrite nscore_not_neg.
Qed.
End FirstScore.

(** In a format in which [-1 < 0] (every IEEE format), [firstscore] is the
    RMS of iteration 0 from iteration 1 on, in all four loops: line 162 (and
    its three copies) sets it once and never again. *)
Theorem firstscore_is_first_rms (prec emax : Z) :
  Tlt (of_int prec emax (-1)) (of_int prec emax 0) = true ->
  (forall res0 ker mdl0 gain tol k sk,
      let dim := DIM0 res0 in
      let q := q_1d_r prec emax ker dim in
      let init := init_1d prec emax res0 mdl0 (of_int prec emax 0) in
      state_at (iter_1d_r prec emax ker gain tol q dim) (Datatypes.S k) 0 init
        = Some sk ->
      firstscore sk = t_nscore (attempt_1d_r prec emax ker gain q dim init)) /\
  (forall res0 ker mdl0 gain tol k sk,
      let dim1 := DIM0 res0 in
      let dim2 := DIM1 res0 in
      let q := q_2d_r prec emax ker dim1 dim2 in
      let init := init_2d prec emax res0 mdl0 (of_int prec emax 0) in
      state_at (iter_2d_r prec emax ker gain tol q dim1 dim2) (Datatypes.S k) 0 init
        = Some sk ->
      firstscore sk = t_nscore (attempt_2d_r prec emax ker gain q dim1 dim2 init)) /\
  (forall res0 ker mdl0 gain tol k sk,
      let dim := DIM0 res0 in
      let q := q_1d_c prec emax ker dim in
      let init := init_1d prec emax res0 mdl0 (of_int prec emax 0, of_int prec emax 0) in
      state_at (iter_1d_c prec emax ker gain tol q dim) (Datatypes.S k) 0 init
        = Some sk ->
      firstscore sk = t_nscore (attempt_1d_c prec emax ker gain q dim init)) /\
  (forall res0 ker mdl0 gain tol k sk,
      let dim1 := DIM0 res0 in
      let dim2 := DIM1 res0 in
      let q := q_2d_c prec emax ker dim1 dim2 in
      let init := init_2d prec emax res0 mdl0 (of_int prec emax 0, of_int prec emax 0) in
      state_at (iter_2d_c prec emax ker gain tol q dim1 dim2) (Datatypes.S k) 0 init
        = Some sk ->
      firstscore sk = t_nscore (attempt_2d_c prec emax ker gain q dim1 dim2 init)).
Proof.
  intros Hneg. split_and!; intros res0 ker mdl0 gain tol k sk; cbv zeta; intros Hk.
  - eapply (firstscore_fixed prec emax _ _ _ Hneg); [done| | |exact Hk].
    + intros i s s'. unfold iter_1d_r.
      destruct (diverged _ _ _ _); [discriminate|].
      destruct (converged _ _ _ _ _ _); [discriminate|]. by intros [= <-].
    + intros s. apply Tsqrt_not_neg.
  - eapply (firstscore_fixed prec emax _ _ _ Hneg); [done| | |exact Hk].
    + intros i s s'. unfold iter_2d_r.
      destruct (diverged _ _ _ _); [discriminate|].
      destruct (converged _ _ _ _ _ _); [discriminate|]. by intros [= <-].
    + intros s. apply Tsqrt_not_neg.
  - eapply (firstscore_fixed prec emax _ _ _ Hneg); [done| | |exact Hk].
    + intros i s s'. unfold iter_1d_c.
      destruct (diverged _ _ _ _); [discriminate|].
      destruct (converged _ _ _ _ _ _); [discriminate|]. by intros [= <-].
    + intros s. apply Tsqrt_not_neg.
  - eapply (firstscore_fixed prec emax _ _ _ Hneg); [done| | |exact Hk].
    + intros i s s'. unfold iter_2d_c.
      destruct (diverged _ _ _ _); [|destruct (converged _ _ _ _ _ _)];
        [|discriminate|]; by intros [= <-].
    + intros s. apply Tsqrt_not_neg.
Qed.

Lemma firstscore_is_first_rms_witness :
  exists sk,
    state_at Diverging.body 2 0 Diverging.init = Some sk /\
    firstscore sk = t_nscore (Diverging.attempt Diverging.init).
Proof.
  eexists. split; [vm_compute; reflexivity|].
  apply (proj2 (proj2 (proj2 (firstscore_is_first_rms 53 1024 ltac:(reflexivity))))
           Diverging.residual Diverging.kernel Diverging.model Diverging.gain
           Double.tol 1%nat).
  vm_compute. reflexivity.
Defined.

(** ** The wrapper, on residuals of rank 1 or 2 *)

Lemma clean_rejects_invalid_witness :
  let res := mkArray 2 [2; 2] NPY_FLOAT in
  let ker := mkArray 1 [2] NPY_FLOAT in
  exists msg, clean res ker res = ValueError msg.
Proof.
  cbv zeta.
  apply (clean_rejects_invalid (mkArray 2 [2; 2] NPY_FLOAT) (mkArray 1 [2] NPY_FLOAT)
           (mkArray 2 [2; 2] NPY_FLOAT)).
  - split_and!; [simpl; lia | reflexivity | repeat constructor; simpl; lia].
  - split_and!; [simpl; lia | reflexivity | repeat constructor; simpl; lia].
  - split_and!; [simpl; lia | reflexivity | repeat constructor; simpl; lia].
  - right. reflexivity.
  - intros (_ & H & _). simpl in H. lia.
Defined.

Lemma dispatch_valid res ker mdl rank :
  TYPE ker = TYPE res -> TYPE mdl = TYPE res -> supported (TYPE res) ->
  exists T, element_type (TYPE res) = Some T /\
            dispatch res ker mdl rank
            = Invoke T (if decide (rank = 1)
                        then (if is_complex (TYPE res) then core_1d_c else core_1d_r)
                        else (if is_complex (TYPE res) then core_2d_c else core_2d_r)).
Proof.
  intros Hk Hm Hs. unfold dispatch. rewrite Hk, Hm.
  rewrite decide_False by (intros [?|?]; done).
  destruct (TYPE res); simpl in *; try done; eexists; (split; [reflexivity|]);
    case_decide; reflexivity.
Qed.

(** A valid call reaches the core of its rank and element kind: rank 1 the
    1-D loops and rank 2 the 2-D ones, a complex type the complex loops,
    single, double and extended precision the [float], [double] and
    [long double] instances. *)
Theorem clean_dispatches res ker mdl :
  well_formed res -> well_formed ker -> well_formed mdl ->
  valid_call res ker mdl ->
  exists T, element_type (TYPE res) = Some T /\
            clean res ker mdl = Invoke T (core_for (nd res) (TYPE res)).
Proof.
  intros (_ & Lr & Fr) _ _ (Hrank & Rk & Rm & Dk & Dm & Tk & Tm & Hs).
  destruct (dispatch_valid res ker mdl (nd res) Tk Tm Hs) as (T & HT & Hd).
  exists T. split; [done|].
  unfold clean, CHK_ARRAY_RANK, CHK_ARRAY_DIM, RANK, DIM.
  rewrite Rk, Rm, Dk, Dm.
  destruct Hrank as [R|R]; rewrite R in *.
  - rewrite !decide_True by done. rewrite decide_False by (intros ?; done).
    destruct (dimensions res) as [|r0 [|]] eqn:Er; try discriminate.
    apply Forall_cons in Fr as [Fr _]. cbn. rewrite (to_int_small r0 Fr).
    rewrite !decide_False by (intros ?; done).
    rewrite Hd. unfold core_for. by destruct (is_complex (TYPE res)).
  - rewrite decide_False by lia. rewrite decide_True by done.
    rewrite decide_False by (intros ?; done).
    destruct (dimensions res) as [|r0 [|r1 [|]]] eqn:Er; try discriminate.
    apply Forall_cons in Fr as [Fr0 Fr]. apply Forall_cons in Fr as [Fr1 _].
    cbn. rewrite (to_int_small r0 Fr0), (to_int_small r1 Fr1).
    rewrite !decide_False by (intros ?; done).
    rewrite Hd. unfold core_for. by destruct (is_complex (TYPE res)).
Qed.

Lemma clean_dispatches_witness :
  let a := mkArray 2 [3; 4] NPY_CDOUBLE in
  exists T, element_type NPY_CDOUBLE = Some T /\ clean a a a = Invoke T core_2d_c.
Proof.
  cbv zeta.
  apply (clean_dispatches (mkArray 2 [3; 4] NPY_CDOUBLE) (mkArray 2 [3; 4] NPY_CDOUBLE)
           (mkArray 2 [3; 4] NPY_CDOUBLE)).
  - split_and!; [simpl; lia | reflexivity | repeat constructor; simpl; lia].
  - split_and!; [simpl; lia | reflexivity | repeat constructor; simpl; lia].
  - split_and!; [simpl; lia | reflexivity | repeat constructor; simpl; lia].
  - unfold valid_call. simpl. auto 10.
Defined.

Lemma to_int_range z : - 2 ^ 31 <= to_int z < 2 ^ 31.
Proof.
  unfold to_int. pose proof (Z.mod_pos_bound (z + 2 ^ 31) (2 ^ 32) ltac:(lia)). lia.
Qed.

(** The extents of the residual are narrowed to [int] before they are
    compared: three arrays of rank 1 or 2 whose first extent does not fit a
    32-bit [int] are rejected, with the message of a mismatch in [ker], even
    when they agree in everything. *)
Theorem extent_beyond_int_rejected a :
  nd a = 1 \/ nd a = 2 ->
  2 ^ 31 <= DIM a 0 ->
  clean a a a = ValueError "dim(ker) != dim1".
Proof.
  intros Hrank Hbig. pose proof (to_int_range (DIM a 0)) as Hr.
  unfold clean, CHK_ARRAY_RANK, CHK_ARRAY_DIM, RANK.
  destruct Hrank as [R|R]; rewrite R.
  - rewrite !decide_True by done. rewrite !decide_False by (intros ?; done).
    cbv zeta. rewrite decide_True by lia. reflexivity.
  - rewrite decide_False by lia. rewrite decide_True by done.
    rewrite !decide_False by (intros ?; done).
    cbv zeta. rewrite decide_True by lia. reflexivity.
Qed.

Lemma extent_beyond_int_rejected_witness :
  clean (mkArray 1 [2 ^ 31 + 5] NPY_DOUBLE) (mkArray 1 [2 ^ 31 + 5] NPY_DOUBLE)
        (mkArray 1 [2 ^ 31 + 5] NPY_DOUBLE)
  = ValueError "dim(ker) != dim1".
Proof.
  apply (extent_beyond_int_rejected (mkArray 1 [2 ^ 31 + 5] NPY_DOUBLE)).
  - left. reflexivity.
  - vm_compute. discriminate.
Defined.

(** ** A kernel of zeros *)

Lemma Tmul_nan_r prec emax x : Tmul prec emax x S754_nan = S754_nan.
Proof. by destruct x. Qed.

Lemma Tsub_nan_r prec emax x : Tsub prec emax x S754_nan = S754_nan.
Proof. by destruct x. Qed.

Lemma Tadd_nan_r prec emax x : Tadd prec emax x S754_nan = S754_nan.
Proof. by destruct x. Qed.

Lemma Tgt_nan_l x : Tgt S754_nan x = false.
Proof. by destruct x. Qed.

Lemma Tgt_nan_r x : Tgt x S754_nan = false.
Proof. by destruct x. Qed.

Lemma IND1_is_zero (ker : list spec_float) n :
  Forall is_zero ker -> is_zero (IND1 ker n).
Proof.
  intros Hz. unfold IND1. destruct (ker !! n) as [x|] eqn:E.
  - rewrite (list_lookup_total_correct _ _ _ E).
    rewrite Forall_lookup in Hz. eauto.
  - rewrite list_lookup_total_alt, E. done.
Qed.

(** The scan of a kernel of zeros keeps its initial pair: the peak is 0. *)
Lemma peak_1d_r_zero prec emax ker dim :
  Forall is_zero ker ->
  peak_1d_r prec emax ker dim = (of_int prec emax 0, of_int prec emax 0).
Proof.
  intros Hz. unfold peak_1d_r. generalize (seq 0 dim). intros ns.
  induction ns as [|n ns IH]; [done|]. simpl.
  pose proof (IND1_is_zero ker n Hz) as Hn.
  destruct (IND1 ker n) as [sz| | |]; done.
Qed.

(** The reciprocal of 0 is an infinity (a NaN in a format without 1). *)
Lemma recip_zero prec emax :
  let q := Tdiv prec emax (of_int prec emax 1) (of_int prec emax 0) in
  q = S754_infinity false \/ q = S754_nan.
Proof.
  cbv zeta. rewrite of_int_0. unfold Tdiv, of_int, binary_normalize.
  pose proof (binary_round_sign prec emax false 1 0) as H1.
  destruct (binary_round prec emax false 1 0) as [s|s| |s m e]; simpl; auto;
    injection (H1 ltac:(discriminate)) as ->; auto.
Qed.

(** With [max = 0] and such a [q], the step is a NaN whatever the gain. *)
Lemma step_nan prec emax g q :
  q = S754_infinity false \/ q = S754_nan ->
  Tmul prec emax (Tmul prec emax g (S754_zero false)) q = S754_nan.
Proof. intros [-> | ->]; destruct g as [[]|[]| |[] m e]; reflexivity. Qed.

(** The scoring loop with a NaN step: the statistics of the peak do not move
    and the sum of squares becomes a NaN. *)
Lemma scan_1d_r_nan prec emax ker a dim ns acc :
  length (a_res acc) = dim -> (0 < dim)%nat ->
  let r := foldl (scan_1d_r prec emax ker S754_nan a dim) acc ns in
  a_max r = a_max acc /\ a_nargmax r = a_nargmax acc /\
  (a_nscore r = S754_nan \/ ns = [] /\ a_nscore r = a_nscore acc).
Proof.
  intros Hl Hd. cbv zeta. revert acc Hl.
  induction ns as [|n ns IH]; intros acc Hl; [simpl; auto|].
  simpl.
  assert (scan_1d_r prec emax ker S754_nan a dim acc n
          = mkScan (upd1 (fun r => Tsub prec emax r
                                     (Tmul prec emax (IND1 ker n) S754_nan))
                         (wrap dim a n) (a_res acc))
                   S754_nan (a_mmax acc) (a_max acc) (a_nargmax acc)) as E.
  { unfold scan_1d_r, upd1, IND1.
    rewrite list_lookup_total_alter_eq by (rewrite Hl; by apply wrap_lt).
    rewrite Tmul_nan_r, Tsub_nan_r. simpl. rewrite Tadd_nan_r.
    by rewrite Tgt_nan_l. }
  rewrite E. clear E.
  destruct (IH (mkScan (upd1 (fun r => Tsub prec emax r
                                         (Tmul prec emax (IND1 ker n) S754_nan))
                             (wrap dim a n) (a_res acc))
                       S754_nan (a_mmax acc) (a_max acc) (a_nargmax acc)))
    as (H1 & H2 & H3).
  { simpl. unfold upd1. by rewrite length_alter. }
  simpl in *. split_and!; [done|done|]. left. destruct H3 as [?|[_ ?]]; done.
Qed.

(** A sweep that writes the same value everywhere fills the buffer. *)
Lemma sweep_fill {A} (f : nat -> A -> A) (x : A) dim a (l : list A) :
  length l = dim -> (forall n r, f n r = x) ->
  sweep f (wrap dim a) (seq 0 dim) l = replicate dim x.
Proof.
  intros Hl Hf. apply list_eq. intros j.
  destruct (decide (j < dim)%nat) as [Hj|Hj].
  - destruct (wrap_surj dim a j Hj) as (n & Hn & <-).
    rewrite sweep_wrap_lookup by done.
    rewrite lookup_replicate_2 by (apply wrap_lt; lia).
    destruct (lookup_lt_is_Some_2 l (wrap dim a n)) as [r ->];
      [rewrite Hl; apply wrap_lt; lia|]. simpl. by rewrite Hf.
  - rewrite !lookup_ge_None_2; [done|rewrite length_replicate; lia|].
    rewrite sweep_length. lia.
Qed.

(** One iteration on a kernel of zeros, from a state with [max = 0] and
    [argmax = nargmax = 0]: neither test fires, the residual becomes all NaN,
    [model[0]] becomes a NaN, and the peak stays where it was. *)
Lemma iter_1d_r_zero_kernel prec emax ker gain tol i dim s :
  (0 < dim)%nat -> length (res s) = dim ->
  max s = S754_zero false -> argmax s = 0%nat -> nargmax s = 0%nat ->
  let q := Tdiv prec emax (of_int prec emax 1) (of_int prec emax 0) in
  exists s',
    iter_1d_r prec emax ker gain tol q dim i s = Continue s' /\
    res s' = replicate dim S754_nan /\
    mdl s' = alter (fun _ => S754_nan) 0%nat (mdl s) /\
    max s' = S754_zero false /\ argmax s' = 0%nat /\ nargmax s' = 0%nat.
Proof.
  intros Hd Hl Hmax Ha Hn q.
  assert (t_step (attempt_1d_r prec emax ker gain q dim s) = S754_nan) as Hstep.
  { unfold attempt_1d_r. simpl. rewrite Hmax. apply step_nan, recip_zero. }
  pose proof (scan_1d_r_nan prec emax ker (argmax s) dim (seq 0 dim)
                (mkScan (res s) (of_int prec emax 0) (of_int prec emax (-1))
                        (max s) (nargmax s)) Hl Hd) as (H1 & H2 & H3).
  simpl in H1, H2, H3.
  assert (t_nscore (attempt_1d_r prec emax ker gain q dim s) = S754_nan) as Hns.
  { unfold attempt_1d_r in *. simpl in *. rewrite Hstep.
    destruct H3 as [->|[E _]]; [reflexivity|]. destruct dim; [lia|discriminate]. }
  assert (t_max (attempt_1d_r prec emax ker gain q dim s) = S754_zero false) as Hm.
  { unfold attempt_1d_r in *. simpl in *. rewrite Hstep. congruence. }
  assert (t_nargmax (attempt_1d_r prec emax ker gain q dim s) = 0%nat) as Hna.
  { unfold attempt_1d_r in *. simpl in *. rewrite Hstep. congruence. }
  assert (t_res (attempt_1d_r prec emax ker gain q dim s) = replicate dim S754_nan)
    as Hres.
  { rewrite attempt_1d_r_res. apply sweep_fill; [done|].
    intros n r. by rewrite Hstep, Tmul_nan_r, Tsub_nan_r. }
  assert (t_mdl (attempt_1d_r prec emax ker gain q dim s)
          = alter (fun _ => S754_nan) 0%nat (mdl s)) as Hmdl.
  { change (t_mdl (attempt_1d_r prec emax ker gain q dim s))
      with (upd1 (fun m => Tadd prec emax m
                             (t_step (attempt_1d_r prec emax ker gain q dim s)))
                 (argmax s) (mdl s)).
    rewrite Hstep, Ha. unfold upd1. apply list_alter_ext; [|done].
    intros m _. apply Tadd_nan_r. }
  unfold iter_1d_r. fold q. rewrite Hns.
  assert (diverged prec emax (score s) S754_nan = false) as ->.
  { unfold diverged. rewrite Tgt_nan_l. apply andb_false_r. }
  assert (forall fs, converged prec emax (score s) S754_nan fs tol = false) as ->.
  { intros fs. unfold converged. rewrite Tsub_nan_r. simpl. apply andb_false_r. }
  eexists. split; [reflexivity|]. cbn [res mdl max argmax nargmax].
  rewrite Hres, Hmdl, Hm, Hna. done.
Qed.

(** A real 1-D kernel that is all zeros makes line 141 divide by zero.  The
    call does not fail: every step is a NaN, neither test ever fires, and with
    a budget [maxiter >= 1] on a buffer that is not empty the call returns
    [maxiter] with a residual of NaN everywhere and a NaN in [model[0]]; the
    rest of the model is untouched. *)
Theorem zero_kernel_poisons (prec emax : Z) res0 ker mdl0 gain maxiter tol :
  Forall is_zero ker -> length ker = length res0 ->
  (0 < length res0)%nat -> 1 <= maxiter ->
  let r := clean_1d_r prec emax res0 ker mdl0 gain maxiter tol in
  fst r = maxiter /\
  res (snd r) = replicate (length res0) S754_nan /\
  mdl (snd r) = alter (fun _ => S754_nan) 0%nat mdl0.
Proof.
  intros Hz _ Hd Hm. cbv zeta. unfold clean_1d_r, q_1d_r, DIM0.
  rewrite (peak_1d_r_zero prec emax ker (length res0) Hz). cbn [snd].
  set (q := Tdiv prec emax (of_int prec emax 1) (of_int prec emax 0)).
  set (body := iter_1d_r prec emax ker gain tol q (length res0)).
  set (init := init_1d prec emax res0 mdl0 (of_int prec emax 0)).
  pose (J := fun s : state (list spec_float) spec_float nat =>
               length (res s) = length res0 /\ max s = S754_zero false /\
               argmax s = 0%nat /\ nargmax s = 0%nat /\
               (mdl s = mdl0 \/ mdl s = alter (fun _ => S754_nan) 0%nat mdl0)).
  assert (forall i s, J s -> exists s',
             body i s = Continue s' /\ J s' /\
             res s' = replicate (length res0) S754_nan /\
             mdl s' = alter (fun _ => S754_nan) 0%nat mdl0) as Hstep.
  { intros i s (Hl & Hmax & Ha & Hn & Hmdl).
    destruct (iter_1d_r_zero_kernel prec emax ker gain tol i (length res0) s
                Hd Hl Hmax Ha Hn) as (s' & E & Hr & Hm' & Hx & Ha' & Hn').
    exists s'. split; [exact E|].
    assert (mdl s' = alter (fun _ => S754_nan) 0%nat mdl0) as Hmd.
    { rewrite Hm'. destruct Hmdl as [->| ->]; [done|].
      by rewrite list_alter_alter_eq. }
    split_and!; try done. unfold J. rewrite Hr, length_replicate. auto 10. }
  assert (J init) as Hinit by (unfold J; simpl; auto 10).
  assert (forall k sk, state_at body k 0 init = Some sk -> J sk) as Hinv.
  { intros k sk Hk.
    refine (state_at_invariant body J _ k 0 init sk Hinit Hk).
    intros i s s' Hs E. destruct (Hstep i s Hs) as (s1 & E1 & Hs1 & _).
    rewrite E in E1. by injection E1 as <-. }
  destruct (for_loop_exhausts body maxiter (Z.to_nat maxiter) 0 init)
    as (sn & Hsn & ->).
  { intros k sk _ Hk. destruct (Hstep (0 + Z.of_nat k) sk (Hinv k sk Hk))
      as (s' & E & _). eauto. }
  simpl. split; [done|].
  replace (Z.to_nat maxiter) with (Datatypes.S (Z.to_nat (maxiter - 1))) in Hsn by lia.
  apply state_at_succ in Hsn as (sl & Hsl & E).
  destruct (Hstep (0 + Z.of_nat (Z.to_nat (maxiter - 1))) sl (Hinv _ sl Hsl))
    as (s' & E' & _ & Hr & Hmd).
  rewrite E in E'. injection E' as <-. done.
Qed.

Lemma zero_kernel_poisons_witness :
  let r := clean_1d_r 53 1024 [Double.d 0; Double.d 0; Double.d 5; Double.d 0]
             [Double.d 0; Double.d 0; Double.d 0; Double.d 0]
             [Double.d 0; Double.d 0; Double.d 0; Double.d 0]
             (Double.dq 1 10) 3 Double.tol in
  fst r = 3 /\
  res (snd r) = replicate 4 S754_nan /\
  mdl (snd r) = alter (fun _ => S754_nan) 0%nat
                      [Double.d 0; Double.d 0; Double.d 0; Double.d 0].
Proof.
  cbv zeta.
  apply (zero_kernel_poisons 53 1024
           [Double.d 0; Double.d 0; Double.d 5; Double.d 0]
           [Double.d 0; Double.d 0; Double.d 0; Double.d 0]
           [Double.d 0; Double.d 0; Double.d 0; Double.d 0]
           (Double.dq 1 10) 3 Double.tol);
    [repeat constructor | reflexivity | simpl; lia | lia].
Defined.

(** ** The peak of the new residual *)

Section Track.
Variables prec emax : Z.
Context {B V I : Type}.
Variable get : B -> I -> V.
Variable modify : (V -> V) -> I -> B -> B.
Variable valid : B -> I -> Prop.
Variable norm2 : V -> spec_float.

Hypothesis get_modify_eq : forall f i b,
  valid b i -> get (modify f i b) i = f (get b i).
Hypothesis get_modify_ne : forall f i j b,
  i <> j -> get (modify f i b) j = get b j.
Hypothesis valid_modify : forall f i j b, valid b j -> valid (modify f i b) j.


End Track.



















(** ** The score *)


Section TrackScore.
Variables prec emax : Z.
Context {B V I : Type}.
Variable get : B -> I -> V.
Variable modify : (V -> V) -> I -> B -> B.
Variable norm2 : V -> spec_float.

Hypothesis get_modify_ne : forall f i j b,
  i <> j -> get (modify f i b) j = get b j.

End TrackScore.



(** An image of 46341 x 46341 elements has more than 2^31 - 1 of them: the
    [int] product is negative, and the square root of a positive sum divided
    by it is a NaN. *)
Example divisor_wraps :
  to_int (46341 * 46341) = -2147479015 /\
  Tsqrt 53 1024 (Tdiv 53 1024 (Double.d 1) (Double.d (to_int (46341 * 46341))))
  = S754_nan.
Proof. split; vm_compute; reflexivity. Qed.

(** ** Ties in the kernel scan *)

(** When several kernel elements share the largest squared magnitude, the
    scan keeps the first one it meets: [q] is replaced only on a strictly
    larger value.  So the peak is the initial 0, with [mq = 0], or the first
    element of the kernel, in scan order, whose squared magnitude is [mq]. *)
Theorem kernel_peak_is_first (prec emax : Z) :
  (forall ker dim,
      let r := peak_1d_r prec emax ker dim in
      r = (of_int prec emax 0, of_int prec emax 0) \/
      first_with (fun v => Tmul prec emax v v) (elements_1d ker dim) (fst r) (snd r)) /\
  (forall ker dim1 dim2,
      let r := peak_2d_r prec emax ker dim1 dim2 in
      r = (of_int prec emax 0, of_int prec emax 0) \/
      first_with (fun v => Tmul prec emax v v) (elements_2d ker dim1 dim2)
                 (fst r) (snd r)) /\
  (forall ker dim,
      let r := peak_1d_c prec emax ker dim in
      r = (of_int prec emax 0, (of_int prec emax 0, of_int prec emax 0)) \/
      first_with (cnorm2 prec emax) (elements_1d ker dim) (fst r) (snd r)) /\
  (forall ker dim1 dim2,
      let r := peak_2d_c prec emax ker dim1 dim2 in
      r = (of_int prec emax 0, (of_int prec emax 0, of_int prec emax 0)) \/
      first_with (cnorm2 prec emax) (elements_2d ker dim1 dim2) (fst r) (snd r)).
Proof.
  split_and!.
  - intros ker dim. cbv zeta. rewrite peak_1d_r_scan.
    apply (peak_scan_first (fun v => Tmul prec emax v v) (of_int prec emax 0)).
  - intros ker dim1 dim2. cbv zeta. rewrite peak_2d_r_scan.
    apply (peak_scan_first (fun v => Tmul prec emax v v) (of_int prec emax 0)).
  - intros ker dim. cbv zeta. rewrite peak_1d_c_scan.
    apply (peak_scan_first (cnorm2 prec emax) (of_int prec emax 0, of_int prec emax 0)).
  - intros ker dim1 dim2. cbv zeta. rewrite peak_2d_c_scan.
    apply (peak_scan_first (cnorm2 prec emax) (of_int prec emax 0, of_int prec emax 0)).
Qed.

(** With the kernel [1, -1] the constant is [1], not [-1]. *)
Example tie_keeps_first :
  q_1d_r 53 1024 [Double.d 1; Double.d (-1)] 2 = Double.d 1.
Proof. vm_compute. reflexivity. Qed.

(** ** An image of one row *)

(** Two loops whose bodies correspond step by step end in corresponding
    states with the same value. *)
Lemma for_loop_map {S S'} (f : S -> S') (body : Z -> S -> outcome S)
    (body' : Z -> S' -> outcome S') m n i s :
  (forall i s, body' i (f s) = outcome_map f (body i s)) ->
  for_loop body' m n i (f s)
  = (fst (for_loop body m n i s), f (snd (for_loop body m n i s))).
Proof.
  intros Hb. revert i s. induction n as [|n IH]; intros i s; simpl; [done|].
  rewrite Hb. destruct (body i s) as [rv s'|s']; simpl; [done|apply IH].
Qed.

Lemma wrap_one a n : wrap 1 a n = 0%nat.
Proof. unfold wrap. apply Nat.mod_1_r. Qed.

Lemma scan_2d_r_row prec emax ker step a dim ns acc :
  foldl (scan_2d_r prec emax [ker] step a dim 0 0) (scan_as_row acc) ns
  = scan_as_row (foldl (scan_1d_r prec emax ker step a dim) acc ns).
Proof.
  revert acc. induction ns as [|n ns IH]; intros acc; [done|].
  simpl. rewrite <- IH. f_equal.
  unfold scan_2d_r, scan_1d_r, scan_as_row. cbn [a_res a_nscore a_mmax a_max a_nargmax].
  change (IND2 [ker] 0 n) with (IND1 ker n).
  change (upd2 ?f 0 ?w [?r]) with [upd1 f w r].
  change (IND2 [?r] 0 ?w) with (IND1 r w).
  by destruct (Tgt _ _).
Qed.

Lemma attempt_2d_r_row prec emax ker gain q dim s :
  let t := attempt_1d_r prec emax ker gain q dim s in
  attempt_2d_r prec emax [ker] gain q 1 dim (as_row s)
  = mkTrial (t_step t) [t_mdl t] [t_res t] (t_nscore t) (t_max t)
            (0%nat, t_nargmax t).
Proof.
  cbv zeta. unfold attempt_2d_r, attempt_1d_r, as_row.
  cbn [res mdl max argmax nargmax fst snd seq foldl].
  rewrite wrap_one.
  change (mkScan [res s] (of_int prec emax 0) (of_int prec emax (-1)) (max s)
                 (0%nat, nargmax s))
    with (scan_as_row (mkScan (res s) (of_int prec emax 0) (of_int prec emax (-1))
                              (max s) (nargmax s))).
  rewrite scan_2d_r_row. unfold scan_as_row.
  cbn [a_res a_nscore a_mmax a_max a_nargmax].
  change (Z.of_nat 1) with 1. rewrite Z.mul_1_l. reflexivity.
Qed.

Lemma undo_2d_r_row prec emax ker step a dim r :
  undo_2d_r prec emax [ker] step (0%nat, a) 1 dim [r]
  = [undo_1d_r prec emax ker step a dim r].
Proof.
  unfold undo_2d_r, undo_1d_r. cbn [seq foldl fst snd]. rewrite wrap_one.
  generalize (seq 0 dim). intros ns. revert r.
  induction ns as [|n ns IH]; intros r; [done|].
  simpl. rewrite <- IH. reflexivity.
Qed.

Lemma iter_2d_r_row prec emax ker gain tol q dim i s :
  iter_2d_r prec emax [ker] gain tol q 1 dim i (as_row s)
  = outcome_map as_row (iter_1d_r prec emax ker gain tol q dim i s).
Proof.
  unfold iter_2d_r, iter_1d_r. rewrite attempt_2d_r_row.
  cbn [t_step t_mdl t_res t_nscore t_max t_nargmax].
  change (score (as_row s)) with (score s).
  change (firstscore (as_row s)) with (firstscore s).
  change (argmax (as_row s)) with (0%nat, argmax s).
  destruct (diverged _ _ _ _); [|destruct (converged _ _ _ _ _ _)];
    cbn [outcome_map fst snd]; try reflexivity.
  rewrite undo_2d_r_row. reflexivity.
Qed.

Lemma peak_2d_r_row prec emax ker dim :
  peak_2d_r prec emax [ker] 1 dim = peak_1d_r prec emax ker dim.
Proof. reflexivity. Qed.

(** A real 2-D image of a single row is cleaned exactly as the 1-D array of
    that row: [clean_2d_r] on [[res]], [[ker]], [[mdl]] returns what
    [clean_1d_r] returns on [res], [ker], [mdl], and leaves the same residual
    and model, as single rows. *)
Theorem single_row_image_is_1d (prec emax : Z) res0 ker mdl0 gain maxiter tol :
  let r1 := clean_1d_r prec emax res0 ker mdl0 gain maxiter tol in
  let r2 := clean_2d_r prec emax [res0] [ker] [mdl0] gain maxiter tol in
  fst r2 = fst r1 /\ res (snd r2) = [res (snd r1)] /\ mdl (snd r2) = [mdl (snd r1)].
Proof.
  cbv zeta. unfold clean_2d_r, clean_1d_r, q_2d_r, q_1d_r.
  change (DIM0 [res0]) with 1%nat. change (DIM1 [res0]) with (DIM0 res0).
  rewrite peak_2d_r_row.
  change (init_2d prec emax [res0] [mdl0] (of_int prec emax 0))
    with (as_row (init_1d prec emax res0 mdl0 (of_int prec emax 0))).
  rewrite (for_loop_map as_row
             (iter_1d_r prec emax ker gain tol
                (Tdiv prec emax (of_int prec emax 1)
                      (snd (peak_1d_r prec emax ker (DIM0 res0)))) (DIM0 res0))).
  - done.
  - intros i s. apply iter_2d_r_row.
Qed.

(** ** A long axis *)









